(** * pbkdf2: key derivation helper of Tomb (extras/kdf-keys/pbkdf2.c)

    A shallow embedding of [print_hex], [hex_to_binary], [cleanup] and
    [main], together with the parts of the C library they call
    ([sscanf] with the conversions "%2x", "%1x" and "%d", [strlen],
    [printf] with "%02x", [getchar], [calloc], [realloc], [free]).

    Platform assumptions, written where they are used:
    - plain [char] is signed and 8 bits wide (x86 and x86-64 ABIs);
    - [int] and [unsigned int] are 32 bits wide, stored little-endian,
      and may be stored at any address; [long] is 64 bits wide;
    - the [int] counters of [main] are unbounded here: [buff_len] would
      need more than 40 * 2^25 bytes of passphrase to overflow;
    - [calloc] returns a block (the program does not test its result);
      [realloc] may fail. *)

From Stdlib Require Import ZArith List Bool Ascii String Lia.
Import ListNotations.

Local Open Scope string_scope.
Local Open Scope list_scope.

(** ** Bytes and machine integers *)

Module CInt.

Definition NUL : ascii := zero.
Definition LF : ascii := ascii_of_nat 10.

(** The value of a byte seen as [unsigned char]. *)
Definition uchar (b : ascii) : Z := Z.of_nat (nat_of_ascii b).

(** Conversion of an [int] to [unsigned char] (what is stored in memory). *)
Definition byte_of_Z (v : Z) : ascii := ascii_of_nat (Z.to_nat (v mod 256)).

(** Conversion of an [int] to a signed 8-bit [char]. *)
Definition schar_of_int (v : Z) : Z := ((v + 128) mod 256 - 128)%Z.

Definition uint32 (v : Z) : Z := (v mod 2 ^ 32)%Z.
Definition int32 (v : Z) : Z := ((v + 2 ^ 31) mod 2 ^ 32 - 2 ^ 31)%Z.

(** A number brought into the range of [long], as [strtol] returns it. *)
Definition long_sat (v : Z) : Z := Z.max (- 2 ^ 63) (Z.min (2 ^ 63 - 1) v).

(** [EOF] of <stdio.h>. *)
Definition EOF : Z := (-1)%Z.

End CInt.
Import CInt.

(** ** Memory blocks

    A block is the list of the bytes it holds.  A store inside the block
    replaces one byte; a store past its end is dropped (in C it would land
    outside the allocation). *)

Module Block.

Definition block := list ascii.

(** [calloc(n, 1)] *)
Definition calloc (n : nat) : block := repeat NUL n.

Fixpoint store8 (i : nat) (b : ascii) (m : block) : block :=
  match m, i with
  | [], _ => []
  | _ :: t, O => b :: t
  | h :: t, S j => h :: store8 j b t
  end.

Definition load8 (i : nat) (m : block) : ascii := nth i m NUL.

(** A 32-bit little-endian store through an [unsigned int*] at offset [i]. *)
Definition store32 (i : nat) (v : Z) (m : block) : block :=
  store8 (i + 3) (byte_of_Z (v / 2 ^ 24))
    (store8 (i + 2) (byte_of_Z (v / 2 ^ 16))
       (store8 (i + 1) (byte_of_Z (v / 2 ^ 8))
          (store8 i (byte_of_Z v) m))).

(** [strlen]: the number of bytes before the first NUL of the block. *)
Fixpoint strlen (m : block) : nat :=
  match m with
  | [] => 0
  | c :: t => if Ascii.eqb c NUL then 0 else S (strlen t)
  end.

End Block.
Import Block.

(** ** The C library's formatted input and output *)

Module Libc.

(** Result of one [sscanf] call with a single conversion. *)
Inductive scan : Type :=
| ScanEOF                  (* input ended before any conversion: returns EOF *)
| ScanMismatch             (* matching failure: returns 0 *)
| ScanAssigned (v : Z).    (* one item assigned: returns 1 *)

Definition scan_ret (r : scan) : Z :=
  match r with
  | ScanEOF => EOF
  | ScanMismatch => 0%Z
  | ScanAssigned _ => 1%Z
  end.

Definition isspace (c : ascii) : bool :=
  let n := nat_of_ascii c in
  Nat.eqb n 32 || (Nat.leb 9 n && Nat.leb n 13).

Fixpoint skip_space (s : string) : string :=
  match s with
  | EmptyString => s
  | String c r => if isspace c then skip_space r else s
  end.

Definition is_sign (c : ascii) : bool := Ascii.eqb c "+" || Ascii.eqb c "-".
Definition is_x (c : ascii) : bool := Ascii.eqb c "x" || Ascii.eqb c "X".

Definition xdigit (c : ascii) : option Z :=
  let n := uchar c in
  if ((48 <=? n) && (n <=? 57))%Z then Some (n - 48)%Z
  else if ((97 <=? n) && (n <=? 102))%Z then Some (n - 87)%Z
  else if ((65 <=? n) && (n <=? 70))%Z then Some (n - 55)%Z
  else None.

Definition digit (c : ascii) : option Z :=
  let n := uchar c in
  if ((48 <=? n) && (n <=? 57))%Z then Some (n - 48)%Z else None.

(** At most [width] hexadecimal digits from the front of [s]: the value
    read so far and the number of digits taken. *)
Fixpoint scan_xdigits (width : nat) (s : string) (acc : Z) (n : nat) : Z * nat :=
  match width, s with
  | S w, String c r =>
      match xdigit c with
      | Some d => scan_xdigits w r (acc * 16 + d)%Z (S n)
      | None => (acc, n)
      end
  | _, _ => (acc, n)
  end.

(** [sscanf(s, "%<width>x", &u)]: white space is skipped and does not
    count in the field width; a sign and the prefix 0x count.  A prefix
    0x that fills the field converts the 0 already read, as the GNU
    scanner does. *)
Definition sscanf_x (width : nat) (s : string) : scan :=
  match skip_space s with
  | EmptyString => ScanEOF
  | String c r =>
      let neg := Ascii.eqb c "-" in
      let w1 := if is_sign c then pred width else width in
      let s1 := if is_sign c then r else String c r in
      let '(seen0, w2, s2) :=
        match w1, s1 with
        | S w, String c0 r1 =>
            if Ascii.eqb c0 "0" then
              match w, r1 with
              | S w', String x r2 => if is_x x then (true, w', r2) else (true, w, r1)
              | _, _ => (true, w, r1)
              end
            else (false, w1, s1)
        | _, _ => (false, w1, s1)
        end in
      let '(v, n) := scan_xdigits w2 s2 0%Z 0 in
      if seen0 || Nat.ltb 0 n
      then ScanAssigned (uint32 (if neg then - v else v))
      else ScanMismatch
  end.

Fixpoint scan_digits (s : string) (acc : Z) (n : nat) : Z * nat :=
  match s with
  | String c r =>
      match digit c with
      | Some d => scan_digits r (acc * 10 + d)%Z (S n)
      | None => (acc, n)
      end
  | EmptyString => (acc, n)
  end.

(** [sscanf(s, "%d", &i)].  A value outside the range of [int] is
    undefined in ISO C; as the GNU scanner does, the number is converted
    like [strtol], which stops at the ends of the range of [long], and
    its low 32 bits are stored. *)
Definition sscanf_d (s : string) : scan :=
  match skip_space s with
  | EmptyString => ScanEOF
  | String c r =>
      let neg := Ascii.eqb c "-" in
      let s1 := if is_sign c then r else String c r in
      let '(v, n) := scan_digits s1 0%Z 0 in
      if Nat.ltb 0 n
      then ScanAssigned (int32 (long_sat (if neg then - v else v)))
      else ScanMismatch
  end.

Definition xdigit_char (d : nat) : ascii :=
  nth d (list_ascii_of_string "0123456789abcdef") "0"%char.

(** [printf("%02x", b)] for an [unsigned char] argument. *)
Definition printf_02x (b : ascii) : string :=
  let n := nat_of_ascii b in
  String (xdigit_char (n / 16)) (String (xdigit_char (n mod 16)) EmptyString).

End Libc.
Import Libc.

(** ** The program *)

Module Pbkdf2.

(** block size for password buffer *)
Definition BLOCK_SIZE : nat := 40.

(** The loop of [print_hex]: [todo] more bytes from index [i]. *)
Fixpoint print_hex_loop (buf : block) (i todo : nat) : string :=
  match todo with
  | O => EmptyString
  | S k => (printf_02x (load8 i buf) ++ print_hex_loop buf (S i) k)%string
  end.

(** [print_hex(buf, len)]: the text written to standard output. *)
Definition print_hex (buf : block) (len : Z) : string :=
  (print_hex_loop buf 0 (Z.to_nat len) ++ String LF EmptyString)%string.

(** [hex_to_binary], from the point where [buf] has advanced by [pos]
    bytes and [count] groups are done.  Returns the [int] result and
    the block.  Each conversion sees the whole rest of the string;
    [hex] then advances by two characters, or by one when only one is
    left. *)
Fixpoint hex_to_binary_from (buf : block) (pos : nat) (count : Z) (hex : string)
  : Z * block :=
  match hex with
  | EmptyString => (count, store8 pos NUL buf)
  | String _ EmptyString =>
      match sscanf_x 1 hex with
      | ScanAssigned v =>
          ((count + 1)%Z, store8 (S pos) NUL (store32 pos v buf))
      | _ => ((-1)%Z, buf)
      end
  | String _ (String _ rest) =>
      match sscanf_x 2 hex with
      | ScanAssigned v =>
          hex_to_binary_from (store32 pos v buf) (S pos) (count + 1)%Z rest
      | _ => ((-1)%Z, buf)
      end
  end.

Definition hex_to_binary (buf : block) (hex : string) : Z * block :=
  hex_to_binary_from buf 0 0%Z hex.

(** The salt block as [main] allocates it for the text [hex]. *)
Definition salt_block (hex : string) : block :=
  calloc (String.length hex / 2 + 3).

(** *** What a run shows to the outside *)

(** The three heap pointers of [main]. *)
Inductive buffer : Type := Result | Pass | Salt.

(** How a block leaves the program's hands: [free], a [realloc] that
    moved it (the allocator frees the old block as it is), or the loss
    of the only pointer to it. *)
Inductive disposal : Type := ByFree | ByRealloc | Orphaned.

(** The lines written to standard error. *)
Inductive diagnostic : Type :=
| Usage (argv0 : string)
| NotValidSalt (arg : string)
| CountNotPositive
| ResultLenNotPositive
| ErrorAllocating
| PasswordEmpty
| VersionMismatch.

Definition message (d : diagnostic) : string :=
  match d with
  | Usage a =>
      "usage: " ++ a ++ " salt count len <passwd >binary_key_iv" ++ String LF ""
  | NotValidSalt a =>
      "Error: " ++ a ++ " is not a valid salt (it must be a hexadecimal string)"
        ++ String LF ""
  | CountNotPositive => "Error: count must be a positive integer" ++ String LF ""
  | ResultLenNotPositive =>
      "Error: result_len must be a positive integer" ++ String LF ""
  | ErrorAllocating => "Error allocating memory"
  | PasswordEmpty => "Error: password is empty" ++ String LF ""
  | VersionMismatch => "libgcrypt version mismatch" ++ String LF ""
  end%string.

Inductive event : Type :=
| Stderr (d : diagnostic)
| Stdout (text : string)
(* gcry_kdf_derive(pass, passlen, GCRY_KDF_PBKDF2, GCRY_MD_SHA1,
                   salt, saltlen, ic, dklen, result) *)
| KdfDerive (pass : block) (passlen : nat) (salt : block) (saltlen : Z)
            (ic : Z) (dklen : Z)
(* the bytes a block holds when the program lets go of it *)
| Dispose (b : buffer) (how : disposal) (contents : block).

(** *** What the program does not decide *)

Inductive realloc_result : Type := ReallocFails | ReallocInPlace | ReallocMoves.

Record environment : Type := {
  (* outcome of realloc(pass, n) *)
  realloc : nat -> realloc_result;
  (* the byte found at an offset of storage that was never written *)
  fresh : nat -> ascii;
  (* what the stack slot of result_len holds before it is assigned *)
  stack_result_len : Z;
  (* the size of a pointer, sizeof(unsigned char *p) *)
  sizeof_pointer : nat;
  (* gcry_check_version("1.5.0") != NULL *)
  gcry_check_version : bool;
  (* PBKDF2-HMAC-SHA1 of libgcrypt: passphrase, salt, iterations, length *)
  pbkdf2_sha1 : list ascii -> list ascii -> Z -> Z -> list ascii
}.

(** *** Traces and exits

    A computation yields the events so far and either a value or the
    status passed to [exit]. *)

Definition prog (A : Type) : Type := (list event * (A + Z))%type.

Definition ret {A : Type} (a : A) : prog A := ([], inl a).

Definition bind {A B : Type} (m : prog A) (k : A -> prog B) : prog B :=
  match snd m with
  | inl a => (fst m ++ fst (k a), snd (k a))
  | inr code => (fst m, inr code)
  end.

Definition emit (e : event) : prog unit := ([e], inl tt).

Definition exit {A : Type} (code : Z) : prog A := ([], inr code).

Definition trace {A : Type} (m : prog A) : list event := fst m.

(** The status of the process: the argument of [exit], or 0 when [main]
    returns. *)
Definition exit_status (m : prog unit) : Z :=
  match snd m with
  | inl _ => 0%Z
  | inr code => code
  end.

End Pbkdf2.
Import Pbkdf2.

Declare Scope prog_scope.
Delimit Scope prog_scope with prog.
Notation "x <- m ;; k" := (bind m (fun x => k))
  (at level 61, m at next level, right associativity) : prog_scope.
Notation "m ;; k" := (bind m (fun _ => k))
  (at level 61, right associativity) : prog_scope.

Module Main.

Local Open Scope prog_scope.

(** [for(i=0; i<len; i++) buf[i]=0;] with [todo] iterations left. *)
Fixpoint zero_loop (todo i : nat) (m : block) : block :=
  match todo with
  | O => m
  | S k => zero_loop k (S i) (store8 i NUL m)
  end.

(** [for(i=0; i<strlen(pass); i++) pass[i]=0;] where the bound is
    evaluated again before every iteration. *)
Fixpoint blank_loop (fuel i : nat) (m : block) : block :=
  match fuel with
  | O => m
  | S k => if Nat.ltb i (strlen m) then blank_loop k (S i) (store8 i NUL m) else m
  end.

(** [strlen] never exceeds the block, so this many tests of the bound
    are enough for the loop to leave. *)
Definition blank (m : block) : block := blank_loop (S (List.length m)) 0 m.

(** [cleanup]; a NULL pointer is [None]. *)
Definition cleanup (result : option block) (result_len : Z) (pass : option block)
           (salt : option block) (salt_len : Z) : prog unit :=
  match result with
  | Some r => emit (Dispose Result ByFree (zero_loop (Z.to_nat result_len) 0 r))
  | None => ret tt
  end ;;
  match pass with
  | Some p => emit (Dispose Pass ByFree (blank p))
  | None => ret tt
  end ;;
  match salt with
  | Some s => emit (Dispose Salt ByFree (zero_loop (Z.to_nat salt_len) 0 s))
  | None => ret tt
  end.

(** The locals of [main] that are fixed once the arguments are read. *)
Record params : Type := {
  salt : block;
  salt_len : Z;
  ic : Z;
  result_len : Z
}.

(** Lines 112 to 133: argument count, salt, iteration count, length.
    [sscanf] leaves the variable alone unless it assigns. *)
Definition arguments (env : environment) (argv : list string) : prog params :=
  if negb (Nat.eqb (List.length argv) 4) then
    emit (Stderr (Usage (nth 0 argv ""%string))) ;; exit 10
  else
    let arg1 := nth 1 argv ""%string in
    let '(salt_len, salt) := hex_to_binary (salt_block arg1) arg1 in
    if (salt_len <=? 0)%Z then
      emit (Stderr (NotValidSalt arg1)) ;; exit 1
    else
      let r2 := sscanf_d (nth 2 argv ""%string) in
      let ic := match r2 with ScanAssigned v => v | _ => 0%Z end in
      if (scan_ret r2 =? 0)%Z || (ic <=? 0)%Z then
        emit (Stderr CountNotPositive) ;; exit 1
      else
        let r3 := sscanf_d (nth 3 argv ""%string) in
        let result_len :=
          match r3 with ScanAssigned v => v | _ => stack_result_len env end in
        if (scan_ret r3 =? 0)%Z || (result_len <=? 0)%Z then
          emit (Stderr ResultLenNotPositive) ;; exit 1
        else
          ret {| salt := salt; salt_len := salt_len; ic := ic;
                 result_len := result_len |}.

(** The password buffer while it is read. *)
Record reader : Type := {
  pass : block;
  pw_len : nat;
  buff_len : nat
}.

(** Lines 146 to 152.  On failure [pass] is NULL already when the old
    block would have to be cleared. *)
Definition grow (env : environment) (p : params) (st : reader) : prog reader :=
  let n := 2 * buff_len st in
  let grown := pass st ++ map (fresh env) (seq (buff_len st) (buff_len st)) in
  match realloc env n with
  | ReallocFails =>
      emit (Dispose Pass Orphaned (pass st)) ;;
      emit (Stderr ErrorAllocating) ;;
      cleanup None (result_len p) None (Some (salt p)) (salt_len p) ;;
      exit 3
  | ReallocInPlace =>
      ret {| pass := grown; pw_len := pw_len st; buff_len := n |}
  | ReallocMoves =>
      emit (Dispose Pass ByRealloc (pass st)) ;;
      ret {| pass := grown; pw_len := pw_len st; buff_len := n |}
  end.

(** Lines 143 to 157.  [getchar] gives a byte as a value from 0 to 255
    and [EOF] once [stdin] is used up; the value is converted to [char]
    before it is compared with [EOF]. *)
Fixpoint read_loop (env : environment) (p : params) (stdin : list ascii)
         (st : reader) : prog reader :=
  match stdin with
  | [] => ret st
  | b :: rest =>
      let c := schar_of_int (uchar b) in
      if (c =? EOF)%Z then ret st
      else
        st1 <- (if Nat.eqb (pw_len st) (buff_len st) then grow env p st else ret st) ;;
        read_loop env p rest
          {| pass := store8 (pw_len st1) (byte_of_Z c) (pass st1);
             pw_len := S (pw_len st1);
             buff_len := buff_len st1 |}
  end.

(** The bytes [src] written over the front of [dst]. *)
Fixpoint overwrite (src dst : block) : block :=
  match src, dst with
  | [], _ => dst
  | _, [] => []
  | b :: src', _ :: dst' => b :: overwrite src' dst'
  end.

(** [gcry_kdf_derive]: the key bytes land at the start of [result].
    [main] does not look at the error code, so only the effect on the
    block is kept. *)
Definition gcry_kdf_derive (env : environment) (pass : block) (passlen : nat)
           (salt : block) (saltlen ic dklen : Z) (result : block) : block :=
  overwrite
    (firstn (Z.to_nat dklen)
       (pbkdf2_sha1 env (firstn passlen pass) (firstn (Z.to_nat saltlen) salt)
          ic dklen))
    result.

Definition start : reader :=
  {| pass := calloc BLOCK_SIZE; pw_len := 0; buff_len := BLOCK_SIZE |}.

(** [main(argc, argv)] with the bytes of standard input; [argv] holds
    the program name first. *)
Definition main (env : environment) (argv : list string) (stdin : list ascii)
  : prog unit :=
  p <- arguments env argv ;;
  st <- read_loop env p stdin start ;;
  if Nat.leb (pw_len st) 1 then
    emit (Stderr PasswordEmpty) ;;
    cleanup None (result_len p) (Some (pass st)) (Some (salt p)) (salt_len p) ;;
    exit 1
  else
    let pass1 := store8 (pw_len st - 1) NUL (pass st) in
    let result := calloc (Z.to_nat (result_len p) * sizeof_pointer env) in
    if negb (gcry_check_version env) then
      emit (Stderr VersionMismatch) ;;
      cleanup (Some result) (result_len p) (Some pass1) (Some (salt p)) (salt_len p) ;;
      exit 2
    else
      let result1 :=
        gcry_kdf_derive env pass1 (pw_len st - 1) (salt p) (salt_len p)
          (ic p) (result_len p) result in
      emit (KdfDerive pass1 (pw_len st - 1) (salt p) (salt_len p)
              (ic p) (result_len p)) ;;
      emit (Stdout (print_hex result1 (result_len p))) ;;
      cleanup (Some result1) (result_len p) (Some pass1) (Some (salt p)) (salt_len p) ;;
      ret tt.

End Main.
Import Main.

(** * The vocabulary of the statements *)


(** A machine to run examples on: every [realloc] succeeds in place, new
    storage reads as "?", the stack slot holds 48, and the derivation is
    stood in for by a function that keeps its inputs visible. *)
Definition toy_kdf (pw sl : list ascii) (n len : Z) : list ascii :=
  firstn (Z.to_nat len) (pw ++ sl ++ repeat "#"%char (Z.to_nat len)).

Definition machine : environment :=
  {| realloc := fun _ => ReallocInPlace;
     fresh := fun _ => "?"%char;
     stack_result_len := 48%Z;
     sizeof_pointer := 8;
     gcry_check_version := true;
     pbkdf2_sha1 := toy_kdf |}.

Definition bytes (s : string) : list ascii := list_ascii_of_string s.

Definition xFF : ascii := ascii_of_nat 255.

(** The arguments and the input used in the examples below. *)
Definition argv_ok : list string := ["pbkdf2"; "0011"; "1"; "4"]%string.

Definition params_ok : params :=
  {| salt := [NUL; ascii_of_nat 17; NUL; NUL; NUL];
     salt_len := 2; ic := 1; result_len := 4 |}.

(** The digits for the bytes [bs]: two per byte, in order, nothing between. *)
Fixpoint hex_text (bs : list ascii) : string :=
  match bs with
  | [] => EmptyString
  | b :: t => (printf_02x b ++ hex_text t)%string
  end.

Definition lower_hex (c : ascii) : bool :=
  existsb (Ascii.eqb c) (list_ascii_of_string "0123456789abcdef").

Definition all_lower_hex (s : string) : bool :=
  forallb lower_hex (list_ascii_of_string s).

(** The diagnostics of a trace, in order. *)
Definition diagnostics (t : list event) : list diagnostic :=
  flat_map (fun e => match e with Stderr d => [d] | _ => [] end) t.

(** The reader's counters agree with its block. *)
Definition fits (st : reader) : Prop :=
  pw_len st <= buff_len st /\ List.length (pass st) = buff_len st /\ 0 < buff_len st.

(** A run that ends as an empty password: status 1 after the one
    diagnostic, nothing on standard output, no derivation, and the
    password block handed to [free] with every byte zero. *)
Definition rejected_as_empty (r : prog unit) : Prop :=
  exit_status r = 1%Z /\
  diagnostics (trace r) = [PasswordEmpty] /\
  (forall text, ~ In (Stdout text) (trace r)) /\
  (forall pw n sl m i d, ~ In (KdfDerive pw n sl m i d) (trace r)) /\
  In (Dispose Pass ByFree (calloc BLOCK_SIZE)) (trace r) /\
  (exists s, In (Dispose Salt ByFree s) (trace r)).


(** The rows of the interface table of exit codes, and the code of each. *)
Inductive category : Type :=
| WrongArgumentCount
| InvalidSaltOrValue
| EmptyPassphrase
| AllocationFailure
| PrimitiveUnavailable.

Definition table (c : category) : Z :=
  match c with
  | WrongArgumentCount => 10
  | InvalidSaltOrValue => 1
  | EmptyPassphrase => 1
  | AllocationFailure => 3
  | PrimitiveUnavailable => 2
  end%Z.

(** The row a diagnostic of the program belongs to. *)
Definition category_of (d : diagnostic) : category :=
  match d with
  | Usage _ => WrongArgumentCount
  | NotValidSalt _ | CountNotPositive | ResultLenNotPositive => InvalidSaltOrValue
  | PasswordEmpty => EmptyPassphrase
  | ErrorAllocating => AllocationFailure
  | VersionMismatch => PrimitiveUnavailable
  end.

(** The machine with another allocator or another library. *)
Definition with_realloc (r : realloc_result) (env : environment) : environment :=
  {| realloc := fun _ => r;
     fresh := fresh env;
     stack_result_len := stack_result_len env;
     sizeof_pointer := sizeof_pointer env;
     gcry_check_version := gcry_check_version env;
     pbkdf2_sha1 := pbkdf2_sha1 env |}.

Definition with_old_library (env : environment) : environment :=
  {| realloc := realloc env;
     fresh := fresh env;
     stack_result_len := stack_result_len env;
     sizeof_pointer := sizeof_pointer env;
     gcry_check_version := false;
     pbkdf2_sha1 := pbkdf2_sha1 env |}.

(** Forty-one bytes: one more than the first block holds. *)
Definition long_input : list ascii := repeat "a"%char 40 ++ [LF].

(** What became of the blocks of one pointer, with their bytes at that time. *)
Definition disposed (b : buffer) (t : list event) : list (disposal * block) :=
  flat_map
    (fun e =>
       match e with
       | Dispose b' how m =>
           match b, b' with
           | Result, Result | Pass, Pass | Salt, Salt => [(how, m)]
           | _, _ => []
           end
       | _ => []
       end) t.

(** The derivations of a trace: password, salt, iterations, length. *)
Definition derivations (t : list event) : list (list ascii * list ascii * Z * Z) :=
  flat_map
    (fun e =>
       match e with
       | KdfDerive pw n sl m i d => [(firstn n pw, firstn (Z.to_nat m) sl, i, d)]
       | _ => []
       end) t.

(** The value of a hexadecimal digit, 0 for any other character. *)
Definition xval (c : ascii) : Z :=
  match xdigit c with
  | Some v => v
  | None => 0%Z
  end.

Definition is_xdigit (c : ascii) : bool :=
  match xdigit c with
  | Some _ => true
  | None => false
  end.

Definition all_xdigit (s : string) : bool :=
  forallb is_xdigit (list_ascii_of_string s).

(** The bytes a string of hexadecimal digits stands for: one byte for
    every two digits, and one for a digit left alone at the end. *)
Fixpoint hex_bytes (s : string) : list ascii :=
  match s with
  | EmptyString => []
  | String c EmptyString => [byte_of_Z (xval c)]
  | String c1 (String c2 r) => byte_of_Z (16 * xval c1 + xval c2) :: hex_bytes r
  end.

(** Whether the stores of [hex_to_binary] stay inside a block of [size]
    bytes when [buf] has advanced by [pos]: a conversion that assigns
    writes an [unsigned int], four bytes, at [buf]; the statement after
    the loop writes one byte. *)
Fixpoint hex_to_binary_in_bounds (size pos : nat) (hex : string) : bool :=
  match hex with
  | EmptyString => Nat.ltb pos size
  | String _ EmptyString =>
      match sscanf_x 1 hex with
      | ScanAssigned _ => Nat.ltb (pos + 3) size && Nat.ltb (S pos) size
      | _ => true
      end
  | String _ (String _ rest) =>
      match sscanf_x 2 hex with
      | ScanAssigned _ =>
          Nat.ltb (pos + 3) size && hex_to_binary_in_bounds size (S pos) rest
      | _ => true
      end
  end.

(** The texts written to standard output, in order. *)
Definition outputs (t : list event) : list string :=
  flat_map (fun e => match e with Stdout text => [text] | _ => [] end) t.

(** The password block and the password length of each derivation. *)
Definition derive_calls (t : list event) : list (block * nat) :=
  flat_map
    (fun e => match e with KdfDerive pw n _ _ _ _ => [(pw, n)] | _ => [] end) t.

(** The machine with another allocator and other bytes in new storage. *)
Definition set_allocator (f : nat -> realloc_result) (g : nat -> ascii)
           (env : environment) : environment :=
  {| realloc := f;
     fresh := g;
     stack_result_len := stack_result_len env;
     sizeof_pointer := sizeof_pointer env;
     gcry_check_version := gcry_check_version env;
     pbkdf2_sha1 := pbkdf2_sha1 env |}.

(** Lines 158 to 186 of [main]: what follows the reading loop. *)
Definition after_read (env : environment) (p : params) (st : reader) : prog unit :=
  (if Nat.leb (pw_len st) 1 then
     emit (Stderr PasswordEmpty) ;;
     cleanup None (result_len p) (Some (pass st)) (Some (salt p)) (salt_len p) ;;
     exit 1
   else
     let pass1 := store8 (pw_len st - 1) NUL (pass st) in
     let result := calloc (Z.to_nat (result_len p) * sizeof_pointer env) in
     if negb (gcry_check_version env) then
       emit (Stderr VersionMismatch) ;;
       cleanup (Some result) (result_len p) (Some pass1) (Some (salt p)) (salt_len p) ;;
       exit 2
     else
       let result1 :=
         gcry_kdf_derive env pass1 (pw_len st - 1) (salt p) (salt_len p)
           (ic p) (result_len p) result in
       emit (KdfDerive pass1 (pw_len st - 1) (salt p) (salt_len p)
               (ic p) (result_len p)) ;;
       emit (Stdout (print_hex result1 (result_len p))) ;;
       cleanup (Some result1) (result_len p) (Some pass1) (Some (salt p)) (salt_len p) ;;
       ret tt)%prog.

(** A trace without output, derivation or result block. *)
Definition quiet (t : list event) : Prop :=
  outputs t = [] /\ derive_calls t = [] /\ disposed Result t = [].

(** * Properties *)

Example print_hex_ex :
  print_hex ["A"%char; zero; ascii_of_nat 255] 3 = ("4100ff" ++ String LF "")%string.
Proof. reflexivity. Qed.

Example sscanf_d_out_of_range :
  sscanf_d "99999999999999999999" = ScanAssigned (-1) /\
  sscanf_d "4294967297" = ScanAssigned 1.
Proof. split; reflexivity. Qed.

Example hex_to_binary_ex :
  hex_to_binary (salt_block "0011a") "0011a"
  = (3%Z, [zero; ascii_of_nat 17; ascii_of_nat 10; zero; zero]).
Proof. reflexivity. Qed.

(** ** Bytes *)

Ltac each_byte b := destruct b as [[] [] [] [] [] [] [] []].

Lemma byte_of_schar (b : ascii) : byte_of_Z (schar_of_int (uchar b)) = b.
Proof. each_byte b; reflexivity. Qed.

Lemma byte_of_uchar (b : ascii) : byte_of_Z (uchar b) = b.
Proof. each_byte b; reflexivity. Qed.

Lemma schar_is_EOF (b : ascii) :
  (schar_of_int (uchar b) =? EOF)%Z = Ascii.eqb b xFF.
Proof. each_byte b; reflexivity. Qed.

(** ** Blocks *)

Section BlockFacts.

Lemma store8_length (i : nat) (b : ascii) (m : block) :
  List.length (store8 i b m) = List.length m.
Proof.
  revert i; induction m as [|h t IH]; intros [|i]; simpl; auto.
Qed.

Lemma firstn_store8_above (n i : nat) (b : ascii) (m : block) :
  n <= i -> firstn n (store8 i b m) = firstn n m.
Proof.
  revert n i; induction m as [|h t IH]; intros n i Hle.
  - destruct i; reflexivity.
  - destruct i as [|i].
    + replace n with 0 by lia. reflexivity.
    + destruct n as [|n]; simpl; [reflexivity|].
      f_equal. apply IH. lia.
Qed.

Lemma firstn_store8_at (i : nat) (b : ascii) (m : block) :
  i < List.length m -> firstn (S i) (store8 i b m) = firstn i m ++ [b].
Proof.
  revert i; induction m as [|h t IH]; intros i Hlt; simpl in Hlt; [lia|].
  destruct i as [|i].
  - reflexivity.
  - change (h :: firstn (S i) (store8 i b t) = h :: (firstn i t ++ [b])).
    f_equal. apply IH. lia.
Qed.

Lemma load8_store8 (i : nat) (b : ascii) (m : block) :
  i < List.length m -> load8 i (store8 i b m) = b.
Proof.
  unfold load8. revert i; induction m as [|h t IH]; intros i Hlt; simpl in Hlt; [lia|].
  destruct i as [|i]; simpl; [reflexivity|]. apply IH. lia.
Qed.

Lemma firstn_store32 (i : nat) (v : Z) (m : block) :
  i < List.length m ->
  firstn (S i) (store32 i v m) = firstn i m ++ [byte_of_Z v].
Proof.
  intros Hlt. unfold store32.
  rewrite !firstn_store8_above by lia.
  now apply firstn_store8_at.
Qed.

Lemma store32_length (i : nat) (v : Z) (m : block) :
  List.length (store32 i v m) = List.length m.
Proof. unfold store32. now rewrite !store8_length. Qed.

End BlockFacts.

(** ** The hex codec *)

Section HexCodec.

Arguments sscanf_x : simpl never.

Lemma printf_02x_lower (b : ascii) : all_lower_hex (printf_02x b) = true.
Proof. each_byte b; reflexivity. Qed.

Lemma sscanf_x_printf_02x (b : ascii) (rest : string) :
  sscanf_x 2 (printf_02x b ++ rest) = ScanAssigned (uchar b).
Proof. each_byte b; reflexivity. Qed.

Lemma hex_to_binary_from_pair buf pos count c1 c2 rest :
  hex_to_binary_from buf pos count (String c1 (String c2 rest))
  = match sscanf_x 2 (String c1 (String c2 rest)) with
    | ScanAssigned v =>
        hex_to_binary_from (store32 pos v buf) (S pos) (count + 1)%Z rest
    | _ => ((-1)%Z, buf)
    end.
Proof. reflexivity. Qed.

Lemma print_hex_loop_text (pre bs : list ascii) :
  print_hex_loop (pre ++ bs) (List.length pre) (List.length bs) = hex_text bs.
Proof.
  revert pre; induction bs as [|b t IH]; intros pre; [reflexivity|].
  change (print_hex_loop (pre ++ b :: t) (List.length pre) (List.length (b :: t)))
    with (String.append
            (printf_02x (load8 (List.length pre) (pre ++ b :: t)))
            (print_hex_loop (pre ++ b :: t) (S (List.length pre)) (List.length t))).
  change (hex_text (b :: t)) with (printf_02x b ++ hex_text t)%string.
  unfold load8. rewrite nth_middle. f_equal.
  replace (pre ++ b :: t) with ((pre ++ [b]) ++ t)
    by (rewrite <- app_assoc; reflexivity).
  replace (S (List.length pre)) with (List.length (pre ++ [b]))
    by (rewrite length_app; simpl; lia).
  apply IH.
Qed.

Lemma hex_text_length (bs : list ascii) :
  String.length (hex_text bs) = 2 * List.length bs.
Proof.
  induction bs as [|b t IH]; [reflexivity|].
  change (hex_text (b :: t))
    with (String (xdigit_char (nat_of_ascii b / 16))
            (String (xdigit_char (nat_of_ascii b mod 16)) (hex_text t))).
  change (S (S (String.length (hex_text t))) = 2 * S (List.length t)).
  rewrite IH. lia.
Qed.

Lemma hex_text_lower (bs : list ascii) : all_lower_hex (hex_text bs) = true.
Proof.
  induction bs as [|b t IH]; [reflexivity|].
  pose proof (printf_02x_lower b) as Hb.
  change (lower_hex (xdigit_char (nat_of_ascii b / 16))
          && (lower_hex (xdigit_char (nat_of_ascii b mod 16)) && true) = true) in Hb.
  change (lower_hex (xdigit_char (nat_of_ascii b / 16))
          && (lower_hex (xdigit_char (nat_of_ascii b mod 16))
              && all_lower_hex (hex_text t)) = true).
  rewrite IH. exact Hb.
Qed.

(** Decoding the digits of [bs] into a block with room for them puts
    [bs] behind what the block held below [pos]. *)
Lemma hex_to_binary_from_text (bs : list ascii) :
  forall buf pos count,
    pos + List.length bs <= List.length buf ->
    fst (hex_to_binary_from buf pos count (hex_text bs))
    = (count + Z.of_nat (List.length bs))%Z /\
    firstn (pos + List.length bs)
           (snd (hex_to_binary_from buf pos count (hex_text bs)))
    = firstn pos buf ++ bs.
Proof.
  induction bs as [|b t IH]; intros buf pos count Hroom.
  - simpl. split; [lia|].
    rewrite Nat.add_0_r, app_nil_r. now apply firstn_store8_above.
  - simpl List.length in *.
    change (hex_text (b :: t)) with (printf_02x b ++ hex_text t)%string.
    change (printf_02x b ++ hex_text t)%string
      with (String (xdigit_char (nat_of_ascii b / 16))
              (String (xdigit_char (nat_of_ascii b mod 16)) (hex_text t))).
    rewrite hex_to_binary_from_pair.
    change (String (xdigit_char (nat_of_ascii b / 16))
              (String (xdigit_char (nat_of_ascii b mod 16)) (hex_text t)))
      with (printf_02x b ++ hex_text t)%string.
    rewrite sscanf_x_printf_02x.
    destruct (IH (store32 pos (uchar b) buf) (S pos) (count + 1)%Z) as [Hc Hb].
    { rewrite store32_length. lia. }
    split.
    + rewrite Hc. lia.
    + replace (pos + S (List.length t)) with (S pos + List.length t) by lia.
      rewrite Hb, firstn_store32, byte_of_uchar by lia.
      now rewrite <- app_assoc.
Qed.

End HexCodec.

(** C7: the text [print_hex] writes for a block of L bytes is the two
    lowercase hexadecimal digits of each byte, in order and with nothing
    between them, followed by one newline: 2*L digits in all.  Decoding
    those digits with [hex_to_binary], into the block [main] allocates for
    them, returns L and leaves the original bytes in the block. *)
Theorem hex_round_trip (bs : list ascii) :
  let digits := hex_text bs in
  print_hex bs (Z.of_nat (List.length bs)) = (digits ++ String LF "")%string /\
  String.length digits = 2 * List.length bs /\
  all_lower_hex digits = true /\
  fst (hex_to_binary (salt_block digits) digits) = Z.of_nat (List.length bs) /\
  firstn (List.length bs) (snd (hex_to_binary (salt_block digits) digits)) = bs.
Proof.
  intros digits. subst digits.
  assert (Hroom : 0 + List.length bs <= List.length (salt_block (hex_text bs))).
  { unfold salt_block, calloc. rewrite repeat_length, hex_text_length.
    replace (2 * List.length bs) with (List.length bs * 2) by lia.
    rewrite Nat.div_mul by lia. lia. }
  destruct (hex_to_binary_from_text bs _ 0 0%Z Hroom) as [Hc Hb].
  repeat split.
  - unfold print_hex. rewrite Nat2Z.id.
    now rewrite <- (print_hex_loop_text [] bs).
  - apply hex_text_length.
  - apply hex_text_lower.
  - exact Hc.
  - exact Hb.
Qed.

(** ** Runs *)

Section Runs.

Local Open Scope prog_scope.

Lemma bind_ret {A B : Type} (a : A) (k : A -> prog B) : bind (ret a) k = k a.
Proof. unfold bind, ret; simpl. now destruct (k a). Qed.

Lemma bind_value {A B : Type} (t : list event) (a : A) (k : A -> prog B) :
  bind (t, inl a) k = (t ++ fst (k a), snd (k a)).
Proof. reflexivity. Qed.

Lemma bind_exit {A B : Type} (t : list event) (code : Z) (k : A -> prog B) :
  bind (t, inr code) k = (t, inr code).
Proof. reflexivity. Qed.

Lemma diagnostics_app (t u : list event) :
  diagnostics (t ++ u) = diagnostics t ++ diagnostics u.
Proof. apply flat_map_app. Qed.

(** The password loop of [cleanup] clears one byte: once [pass[0]] is
    zero, [strlen(pass)] is zero as well. *)
Lemma blank_clears_first (m : block) :
  blank m = if Nat.eqb (strlen m) 0 then m else store8 0 NUL m.
Proof.
  destruct m as [|c t]; [reflexivity|].
  unfold blank. simpl. destruct (Ascii.eqb c NUL); reflexivity.
Qed.

(** More tests of the bound than [blank] allows change nothing: the loop
    has left by its own test. *)
Lemma blank_loop_enough (m : block) (k : nat) :
  S (List.length m) <= k -> blank_loop k 0 m = blank m.
Proof.
  intros Hk. destruct m as [|c t]; simpl in Hk.
  - destruct k as [|k]; [lia|]. reflexivity.
  - destruct k as [|[|k]]; try lia.
    unfold blank. simpl. destruct (Ascii.eqb c NUL); reflexivity.
Qed.

Lemma blank_one_byte (b : ascii) (n : nat) :
  blank (b :: repeat NUL n) = repeat NUL (S n).
Proof.
  rewrite blank_clears_first. simpl.
  destruct (Ascii.eqb b NUL) eqn:E; simpl; [|reflexivity].
  apply Ascii.eqb_eq in E. now subst b.
Qed.

Lemma cleanup_quiet result result_len pass salt salt_len :
  exists t, cleanup result result_len pass salt salt_len = (t, inl tt)
            /\ diagnostics t = [].
Proof.
  destruct result, pass, salt; eexists; split; reflexivity.
Qed.

Lemma grow_outcome env p st :
  let grown :=
    {| pass := pass st ++ map (fresh env) (seq (buff_len st) (buff_len st));
       pw_len := pw_len st;
       buff_len := 2 * buff_len st |} in
  match realloc env (2 * buff_len st) with
  | ReallocFails =>
      exists t, grow env p st = (t, inr 3%Z) /\ diagnostics t = [ErrorAllocating]
  | _ =>
      exists t, grow env p st = (t, inl grown) /\ diagnostics t = []
  end.
Proof.
  unfold grow. destruct (realloc env (2 * buff_len st)).
  - eexists; split; reflexivity.
  - eexists; split; reflexivity.
  - eexists; split; reflexivity.
Qed.

(** The loop either hands over the buffer silently or stops the process
    with status 3 after the allocation diagnostic. *)
Lemma read_loop_outcome env p stdin :
  forall st,
    (exists t st', read_loop env p stdin st = (t, inl st') /\ diagnostics t = [])
    \/ (exists t, read_loop env p stdin st = (t, inr 3%Z)
                  /\ diagnostics t = [ErrorAllocating]).
Proof.
  induction stdin as [|b rest IH]; intros st.
  - left. exists [], st. split; reflexivity.
  - simpl. destruct (schar_of_int (uchar b) =? EOF)%Z.
    + left. exists [], st. split; reflexivity.
    + destruct (Nat.eqb (pw_len st) (buff_len st)).
      * pose proof (grow_outcome env p st) as Hg. cbv zeta in Hg.
        destruct (realloc env (2 * buff_len st)).
        -- destruct Hg as (t & -> & Hd). right. exists t. now rewrite bind_exit.
        -- destruct Hg as (t & -> & Hd). rewrite bind_value.
           match goal with |- context [read_loop env p rest ?s] =>
             destruct (IH s) as [(t' & st' & -> & Hd')|(t' & -> & Hd')] end.
           ++ left. exists (t ++ t'), st'. split; [reflexivity|].
              now rewrite diagnostics_app, Hd, Hd'.
           ++ right. exists (t ++ t'). split; [reflexivity|].
              now rewrite diagnostics_app, Hd, Hd'.
        -- destruct Hg as (t & -> & Hd). rewrite bind_value.
           match goal with |- context [read_loop env p rest ?s] =>
             destruct (IH s) as [(t' & st' & -> & Hd')|(t' & -> & Hd')] end.
           ++ left. exists (t ++ t'), st'. split; [reflexivity|].
              now rewrite diagnostics_app, Hd, Hd'.
           ++ right. exists (t ++ t'). split; [reflexivity|].
              now rewrite diagnostics_app, Hd, Hd'.
      * rewrite bind_ret. apply IH.
Qed.


Lemma start_fits : fits start.
Proof. unfold fits, start, calloc, BLOCK_SIZE. simpl. lia. Qed.

End Runs.

(** ** Empty and one-byte input *)

Section ShortInput.

Local Open Scope prog_scope.

Lemma empty_password_exit (p : params) (b : block) :
  (emit (Stderr PasswordEmpty) ;;
   cleanup None (result_len p) (Some b) (Some (salt p)) (salt_len p) ;;
   exit 1)
  = ([Stderr PasswordEmpty;
      Dispose Pass ByFree (blank b);
      Dispose Salt ByFree (zero_loop (Z.to_nat (salt_len p)) 0 (salt p))],
     inr 1%Z) :> prog unit.
Proof. reflexivity. Qed.

(** With at most one byte on standard input the run is fixed, whatever
    the byte is. *)
Lemma short_input_run env argv p stdin :
  arguments env argv = ret p ->
  List.length stdin <= 1 ->
  main env argv stdin
  = ([Stderr PasswordEmpty;
      Dispose Pass ByFree (calloc BLOCK_SIZE);
      Dispose Salt ByFree (zero_loop (Z.to_nat (salt_len p)) 0 (salt p))],
     inr 1%Z).
Proof.
  intros Hargs Hlen. unfold main. rewrite Hargs, bind_ret.
  destruct stdin as [|b [|b' rest]]; simpl in Hlen; try lia.
  - simpl read_loop. rewrite bind_ret.
    change (Nat.leb (pw_len start) 1) with true. cbv iota.
    rewrite empty_password_exit. reflexivity.
  - simpl read_loop. rewrite schar_is_EOF, byte_of_schar.
    destruct (Ascii.eqb b xFF).
    + rewrite bind_ret.
      change (Nat.leb (pw_len start) 1) with true. cbv iota.
      rewrite empty_password_exit. reflexivity.
    + change (Nat.eqb (pw_len start) (buff_len start)) with false. cbv iota.
      rewrite !bind_ret. cbn [pw_len pass buff_len].
      rewrite empty_password_exit.
      change (Nat.leb (S (pw_len start)) 1) with true. cbv iota.
      change (store8 (pw_len start) b (pass start)) with (b :: repeat NUL 39).
      now rewrite blank_one_byte.
Qed.

Lemma short_input_rejected env argv p stdin :
  arguments env argv = ret p ->
  List.length stdin <= 1 ->
  rejected_as_empty (main env argv stdin).
Proof.
  intros Hargs Hlen. rewrite (short_input_run env argv p stdin Hargs Hlen).
  unfold rejected_as_empty, exit_status, trace. cbn [fst snd].
  repeat split.
  - intros text [H|[H|[H|[]]]]; discriminate.
  - intros pw n sl m i d [H|[H|[H|[]]]]; discriminate.
  - right; left; reflexivity.
  - eexists. right; right; left; reflexivity.
Qed.

End ShortInput.

(** C5: when the arguments are accepted and standard input holds no byte
    or a single byte, the run reports the empty password, exits with
    status 1, writes nothing to standard output, derives nothing, and
    still clears and frees its buffers. *)
Theorem empty_input_rejected env argv p stdin :
  arguments env argv = ret p ->
  List.length stdin <= 1 ->
  rejected_as_empty (main env argv stdin).
Proof. exact (short_input_rejected env argv p stdin). Qed.

Lemma empty_input_rejected_witness :
  rejected_as_empty (main machine argv_ok [LF]).
Proof.
  apply (empty_input_rejected machine argv_ok params_ok [LF]).
  - reflexivity.
  - simpl. lia.
Defined.

(** C10: a standard input of exactly one byte, whatever the byte, is
    refused as an empty password with status 1, and no derivation is
    called: the last byte read is dropped without looking at it. *)
Theorem single_byte_rejected env argv p (b : ascii) :
  arguments env argv = ret p ->
  exit_status (main env argv [b]) = 1%Z /\
  diagnostics (trace (main env argv [b])) = [PasswordEmpty] /\
  (forall pw n sl m i d, ~ In (KdfDerive pw n sl m i d) (trace (main env argv [b]))).
Proof.
  intros Hargs.
  destruct (short_input_rejected env argv p [b] Hargs (le_n 1))
    as (Hs & Hd & _ & Hk & _).
  auto.
Qed.

Lemma single_byte_rejected_witness :
  exit_status (main machine argv_ok ["a"%char]) = 1%Z /\
  diagnostics (trace (main machine argv_ok ["a"%char])) = [PasswordEmpty] /\
  (forall pw n sl m i d,
      ~ In (KdfDerive pw n sl m i d) (trace (main machine argv_ok ["a"%char]))).
Proof.
  apply (single_byte_rejected machine argv_ok params_ok "a"%char).
  reflexivity.
Defined.

(** ** The stripped byte and the derivation *)




(** ** Exit codes *)

Section ExitCodes.

Local Open Scope prog_scope.

Lemma arguments_outcome env argv :
  (exists p, arguments env argv = ret p)
  \/ (exists a, arguments env argv = ([Stderr (Usage a)], inr 10%Z))
  \/ (exists d, arguments env argv = ([Stderr d], inr 1%Z)
                /\ category_of d = InvalidSaltOrValue).
Proof.
  unfold arguments.
  destruct (negb (Nat.eqb (List.length argv) 4)).
  { right; left. eexists. reflexivity. }
  destruct (hex_to_binary _ _) as [n s].
  destruct (n <=? 0)%Z.
  { right; right. eexists. split; reflexivity. }
  destruct (_ || _).
  { right; right. eexists. split; reflexivity. }
  destruct (_ || _).
  { right; right. eexists. split; reflexivity. }
  left. eexists. reflexivity.
Qed.

Lemma version_mismatch_exit (p : params) (r b : block) :
  (emit (Stderr VersionMismatch) ;;
   cleanup (Some r) (result_len p) (Some b) (Some (salt p)) (salt_len p) ;;
   exit 2)
  = ([Stderr VersionMismatch;
      Dispose Result ByFree (zero_loop (Z.to_nat (result_len p)) 0 r);
      Dispose Pass ByFree (blank b);
      Dispose Salt ByFree (zero_loop (Z.to_nat (salt_len p)) 0 (salt p))],
     inr 2%Z) :> prog unit.
Proof. reflexivity. Qed.

Lemma derive_and_return (p : params) (n : nat) (text : string) (r b : block) :
  (emit (KdfDerive b n (salt p) (salt_len p) (ic p) (result_len p)) ;;
   emit (Stdout text) ;;
   cleanup (Some r) (result_len p) (Some b) (Some (salt p)) (salt_len p) ;;
   ret tt)
  = ([KdfDerive b n (salt p) (salt_len p) (ic p) (result_len p);
      Stdout text;
      Dispose Result ByFree (zero_loop (Z.to_nat (result_len p)) 0 r);
      Dispose Pass ByFree (blank b);
      Dispose Salt ByFree (zero_loop (Z.to_nat (salt_len p)) 0 (salt p))],
     inl tt).
Proof. reflexivity. Qed.

Lemma exit_code_of_run env argv stdin :
  match diagnostics (trace (main env argv stdin)) with
  | [] => exit_status (main env argv stdin) = 0%Z
  | [d] => exit_status (main env argv stdin) = table (category_of d)
  | _ => False
  end.
Proof.
  unfold main.
  destruct (arguments_outcome env argv)
    as [[p ->] | [[a ->] | (d & -> & Hd)]].
  - rewrite bind_ret.
    destruct (read_loop_outcome env p stdin start)
      as [(t & st & -> & Ht) | (t & -> & Ht)].
    + rewrite bind_value.
      destruct (Nat.leb (pw_len st) 1).
      * rewrite empty_password_exit. unfold trace, exit_status. cbn [fst snd].
        rewrite diagnostics_app, Ht. reflexivity.
      * destruct (gcry_check_version env); cbn [negb].
        -- rewrite derive_and_return. unfold trace, exit_status. cbn [fst snd].
           rewrite diagnostics_app, Ht. reflexivity.
        -- rewrite version_mismatch_exit. unfold trace, exit_status. cbn [fst snd].
           rewrite diagnostics_app, Ht. reflexivity.
    + rewrite bind_exit. unfold trace, exit_status. cbn [fst snd].
      rewrite Ht. reflexivity.
  - reflexivity.
  - rewrite bind_exit. unfold trace, exit_status. cbn [fst snd diagnostics flat_map app].
    now rewrite Hd.
Qed.

End ExitCodes.

(** The status of the process follows the diagnostic the run prints: it
    is the code the interface table gives for the diagnostic's category,
    and 0 for a run that prints none; a run prints at most one.  Each
    diagnostic is reached by some run. *)
Lemma status_follows_diagnostic :
  (forall env argv stdin,
      match diagnostics (trace (main env argv stdin)) with
      | [] => exit_status (main env argv stdin) = 0%Z
      | [d] => exit_status (main env argv stdin) = table (category_of d)
      | _ => False
      end) /\
  (let run argv := main machine argv (bytes "abc" ++ [LF]) in
   let code m := (diagnostics (trace m), exit_status m) in
   code (run ["pbkdf2"; "0011"; "1"]%string) = ([Usage "pbkdf2"], 10%Z) /\
   code (run ["pbkdf2"; "zz"; "1"; "4"]%string) = ([NotValidSalt "zz"], 1%Z) /\
   code (run ["pbkdf2"; "0011"; "0"; "4"]%string) = ([CountNotPositive], 1%Z) /\
   code (run ["pbkdf2"; "0011"; "1"; "-4"]%string) = ([ResultLenNotPositive], 1%Z) /\
   code (main machine argv_ok []) = ([PasswordEmpty], 1%Z) /\
   code (main (with_realloc ReallocFails machine) argv_ok long_input)
   = ([ErrorAllocating], 3%Z) /\
   code (main (with_old_library machine) argv_ok (bytes "abc" ++ [LF]))
   = ([VersionMismatch], 2%Z) /\
   code (run argv_ok) = ([], 0%Z)).
Proof.
  split.
  - exact exit_code_of_run.
  - cbv zeta. repeat split; vm_compute; reflexivity.
Qed.

(** C9, at failing inputs: the salt "1g" is not a hexadecimal string and
    the count and the length "4x" are not numbers; the interface table
    gives status 1 for an invalid salt and for an invalid count or
    length.  Each of the three runs prints no diagnostic, derives a key
    and ends with status 0.  The salt is the defect shown for C6, the
    count and the length the one shown for C8. *)
Theorem invalid_salt_and_length_exit_zero :
  let stdin := bytes "abc" ++ [LF] in
  let code m :=
    (diagnostics (trace m), List.length (derivations (trace m)), exit_status m) in
  table InvalidSaltOrValue = 1%Z /\
  all_xdigit "1g" = false /\
  code (main machine ["pbkdf2"; "1g"; "1"; "4"]%string stdin) = ([], 1, 0%Z) /\
  sscanf_d "4x" = ScanAssigned 4 /\
  code (main machine ["pbkdf2"; "0011"; "4x"; "4"]%string stdin) = ([], 1, 0%Z) /\
  code (main machine ["pbkdf2"; "0011"; "1"; "4x"]%string stdin) = ([], 1, 0%Z).
Proof. cbv zeta. repeat split; vm_compute; reflexivity. Qed.

(** ** Where the program departs from its description *)

(** A byte that converts to [EOF] ends the loop like the end of input. *)
Lemma read_loop_byte_255 env p rest st :
  read_loop env p (xFF :: rest) st = ret st.
Proof. reflexivity. Qed.

(** C1, at a failing input: of the four bytes "a", 255, "b", newline on
    standard input only "a" reaches the password block; the loop ends at
    the byte 255, which as a [char] equals [EOF], and the run reports an
    empty password. *)
Theorem byte_255_ends_the_read :
  let stdin := ["a"%char; xFF; "b"%char; LF] in
  read_loop machine params_ok stdin start
  = ret {| pass := "a"%char :: repeat NUL 39; pw_len := 1; buff_len := 40 |} /\
  diagnostics (trace (main machine argv_ok stdin)) = [PasswordEmpty] /\
  exit_status (main machine argv_ok stdin) = 1%Z.
Proof. cbv zeta. repeat split. Qed.

(** C2, at failing inputs: after the password "abc" the block goes to
    [free] with "b" and "c" still in it, and after the password "a", NUL,
    "b" with "b" still in it: the loop of [cleanup] ends once the first
    byte is zero. *)
Theorem release_leaves_password_bytes :
  disposed Pass (trace (main machine argv_ok (bytes "abc" ++ [LF])))
  = [(ByFree, NUL :: "b"%char :: "c"%char :: repeat NUL 37)] /\
  disposed Pass (trace (main machine argv_ok ["a"%char; NUL; "b"%char; LF]))
  = [(ByFree, NUL :: NUL :: "b"%char :: repeat NUL 37)].
Proof. split; vm_compute; reflexivity. Qed.

(** C3, at a failing input: with forty-one bytes of input the first block
    is full of password bytes when [realloc] is called.  If [realloc]
    fails, the run ends with status 3 and that block is never cleared nor
    freed; if [realloc] moves the block, the old one is freed as it is. *)
Theorem growth_leaves_password_bytes :
  disposed Pass (trace (main (with_realloc ReallocFails machine) argv_ok long_input))
  = [(Orphaned, repeat "a"%char 40)] /\
  exit_status (main (with_realloc ReallocFails machine) argv_ok long_input) = 3%Z /\
  hd_error
    (disposed Pass (trace (main (with_realloc ReallocMoves machine) argv_ok long_input)))
  = Some (ByRealloc, repeat "a"%char 40).
Proof. repeat split; vm_compute; reflexivity. Qed.

(** C6, at a failing input: the group "1g" is not hexadecimal, yet "%2x"
    converts its first digit, [hex_to_binary] returns 1 with the byte 1,
    and the run derives a key with that salt. *)
Theorem hex_to_binary_accepts_1g :
  sscanf_x 2 "1g" = ScanAssigned 1 /\
  hex_to_binary (salt_block "1g") "1g" = (1%Z, [ascii_of_nat 1; NUL; NUL; NUL]) /\
  derivations (trace (main machine ["pbkdf2"; "1g"; "1"; "4"]%string
                        (bytes "abc" ++ [LF])))
  = [(bytes "abc", [ascii_of_nat 1], 1%Z, 4%Z)] /\
  exit_status (main machine ["pbkdf2"; "1g"; "1"; "4"]%string (bytes "abc" ++ [LF]))
  = 0%Z.
Proof. repeat split; vm_compute; reflexivity. Qed.

(** C8, at failing inputs: for the empty length argument [sscanf]
    returns [EOF], not 0, and assigns nothing; the test then reads what
    the stack slot of [result_len] happens to hold, here 48, and the run
    derives 48 bytes and exits with status 0.  The same argument as
    iteration count is refused, because [ic] starts at 0.  A length of
    "4x" is converted up to the "x" and accepted as 4. *)
Theorem empty_length_argument_accepted :
  let stdin := bytes "abc" ++ [LF] in
  scan_ret (sscanf_d "") = EOF /\
  derivations (trace (main machine ["pbkdf2"; "0011"; "1"; ""]%string stdin))
  = [(bytes "abc", [NUL; ascii_of_nat 17], 1%Z, 48%Z)] /\
  exit_status (main machine ["pbkdf2"; "0011"; "1"; ""]%string stdin) = 0%Z /\
  diagnostics (trace (main machine ["pbkdf2"; "0011"; ""; "4"]%string stdin))
  = [CountNotPositive] /\
  derivations (trace (main machine ["pbkdf2"; "0011"; "1"; "4x"]%string stdin))
  = [(bytes "abc", [NUL; ascii_of_nat 17], 1%Z, 4%Z)].
Proof. cbv zeta. repeat split; vm_compute; reflexivity. Qed.

(** * Further properties *)

(** ** More of the hex decoder *)

Section HexDigits.

Arguments sscanf_x : simpl never.

(** Strings two characters at a time, as the decoder walks them. *)
Lemma string_pair_ind (P : string -> Prop) :
  P EmptyString ->
  (forall c, P (String c EmptyString)) ->
  (forall c1 c2 r, P r -> P (String c1 (String c2 r))) ->
  forall s, P s.
Proof.
  intros H0 H1 H2. fix IH 1.
  intros [|c1 [|c2 r]]; [exact H0 | apply H1 | apply H2, IH].
Qed.

Lemma xdigit_plain (c : ascii) :
  is_xdigit c = true ->
  isspace c = false /\ is_sign c = false /\ is_x c = false /\
  (0 <= xval c < 16)%Z.
Proof. each_byte c; intros H; try discriminate H; repeat split; discriminate. Qed.

Lemma sscanf_x_one_digit (c : ascii) :
  is_xdigit c = true -> sscanf_x 1 (String c EmptyString) = ScanAssigned (xval c).
Proof. each_byte c; intros H; try discriminate H; reflexivity. Qed.

Lemma uint32_small (v : Z) : (0 <= v < 256)%Z -> uint32 v = v.
Proof. intros H. unfold uint32. apply Z.mod_small. lia. Qed.

Lemma sscanf_x_two_digits (c1 c2 : ascii) (rest : string) :
  is_xdigit c1 = true -> is_xdigit c2 = true ->
  sscanf_x 2 (String c1 (String c2 rest))
  = ScanAssigned (16 * xval c1 + xval c2).
Proof.
  intros H1 H2.
  destruct (xdigit_plain c1 H1) as (Hsp & Hsg & _ & Hr1).
  destruct (xdigit_plain c2 H2) as (_ & _ & Hx2 & Hr2).
  unfold sscanf_x. cbn [skip_space]. rewrite Hsp, Hsg. cbn [pred].
  rewrite Hx2. unfold xval in *. unfold is_xdigit in H1, H2.
  destruct (Ascii.eqb c1 "0") eqn:E0.
  - apply Ascii.eqb_eq in E0. subst c1.
    cbn [scan_xdigits]. destruct (xdigit c2) as [v2|]; [|discriminate].
    cbn [orb]. f_equal.
    change (xdigit "0") with (Some 0%Z). cbv iota.
    change (Ascii.eqb "0" "-") with false. cbv iota.
    rewrite uint32_small by lia. lia.
  - cbn [scan_xdigits].
    destruct (xdigit c1) as [v1|]; [|discriminate].
    destruct (xdigit c2) as [v2|]; [|discriminate].
    cbn [orb Nat.ltb Nat.leb]. f_equal.
    replace (Ascii.eqb c1 "-") with false.
    + cbv iota. rewrite uint32_small by lia. lia.
    + symmetry. unfold is_sign in Hsg. apply orb_false_iff in Hsg. apply Hsg.
Qed.

End HexDigits.

Section HexDecoder.

Arguments sscanf_x : simpl never.

Lemma hex_to_binary_from_single buf pos count c :
  hex_to_binary_from buf pos count (String c EmptyString)
  = match sscanf_x 1 (String c EmptyString) with
    | ScanAssigned v => ((count + 1)%Z, store8 (S pos) NUL (store32 pos v buf))
    | _ => ((-1)%Z, buf)
    end.
Proof. reflexivity. Qed.

Lemma all_xdigit_cons c s :
  all_xdigit (String c s) = is_xdigit c && all_xdigit s.
Proof. reflexivity. Qed.

Lemma hex_bytes_length (hex : string) :
  List.length (hex_bytes hex) = (String.length hex + 1) / 2.
Proof.
  induction hex as [| c | c1 c2 r IH] using string_pair_ind.
  - reflexivity.
  - reflexivity.
  - change (S (List.length (hex_bytes r)) = (S (S (String.length r)) + 1) / 2).
    rewrite IH.
    replace (S (S (String.length r)) + 1) with (String.length r + 1 + 1 * 2) by lia.
    rewrite Nat.div_add by lia. lia.
Qed.

Lemma hex_to_binary_from_digits (hex : string) :
  all_xdigit hex = true ->
  forall buf pos count,
    pos + List.length (hex_bytes hex) <= List.length buf ->
    fst (hex_to_binary_from buf pos count hex)
    = (count + Z.of_nat (List.length (hex_bytes hex)))%Z /\
    firstn (pos + List.length (hex_bytes hex))
           (snd (hex_to_binary_from buf pos count hex))
    = firstn pos buf ++ hex_bytes hex.
Proof.
  induction hex as [| c | c1 c2 r IH] using string_pair_ind;
    intros Hd buf pos count Hroom.
  - simpl. split; [lia|].
    rewrite Nat.add_0_r, app_nil_r. now apply firstn_store8_above.
  - rewrite all_xdigit_cons, andb_true_iff in Hd. destruct Hd as [Hc _].
    rewrite hex_to_binary_from_single, sscanf_x_one_digit by exact Hc.
    cbn [fst snd hex_bytes List.length] in *. split; [lia|].
    replace (pos + 1) with (S pos) by lia.
    rewrite firstn_store8_above by lia.
    apply firstn_store32. lia.
  - rewrite !all_xdigit_cons, !andb_true_iff in Hd. destruct Hd as (H1 & H2 & Hr).
    rewrite hex_to_binary_from_pair, sscanf_x_two_digits by assumption.
    change (hex_bytes (String c1 (String c2 r)))
      with (byte_of_Z (16 * xval c1 + xval c2) :: hex_bytes r) in *.
    cbn [List.length] in *.
    destruct (IH Hr (store32 pos (16 * xval c1 + xval c2) buf) (S pos) (count + 1)%Z)
      as [Hc Hb].
    { rewrite store32_length. lia. }
    split.
    + rewrite Hc. lia.
    + replace (pos + S (List.length (hex_bytes r)))
        with (S pos + List.length (hex_bytes r)) by lia.
      rewrite Hb, firstn_store32 by lia. now rewrite <- app_assoc.
Qed.

Lemma salt_block_length (hex : string) :
  List.length (salt_block hex) = String.length hex / 2 + 3.
Proof. unfold salt_block, calloc. apply repeat_length. Qed.

Lemma half_up_le (n : nat) : (n + 1) / 2 <= n / 2 + 1.
Proof.
  replace (n + 1) with (n + 1 * 1) by lia.
  pose proof (Nat.div_mod_eq n 2). pose proof (Nat.div_mod_eq (n + 1 * 1) 2).
  pose proof (Nat.mod_upper_bound n 2). pose proof (Nat.mod_upper_bound (n + 1 * 1) 2).
  lia.
Qed.

(** A character that cannot start a number ends the conversion at once. *)
Lemma sscanf_x_bad_start (c : ascii) (w : nat) (rest : string) :
  xdigit c = None -> isspace c = false -> is_sign c = false ->
  sscanf_x w (String c rest) = ScanMismatch.
Proof.
  intros Hx Hsp Hsg. unfold sscanf_x. cbn [skip_space]. rewrite Hsp, Hsg.
  assert (E0 : Ascii.eqb c "0" = false).
  { destruct (Ascii.eqb c "0") eqn:E; [|reflexivity].
    apply Ascii.eqb_eq in E. subst c. discriminate Hx. }
  destruct w as [|w]; cbn [scan_xdigits]; [reflexivity|].
  rewrite E0. cbn [scan_xdigits]. rewrite Hx. reflexivity.
Qed.

Lemma hex_to_binary_from_bad_group (pre : string) :
  all_xdigit pre = true ->
  Nat.even (String.length pre) = true ->
  forall c rest buf pos count,
    xdigit c = None -> isspace c = false -> is_sign c = false ->
    fst (hex_to_binary_from buf pos count (pre ++ String c rest)) = (-1)%Z.
Proof.
  induction pre as [| c0 | c1 c2 r IH] using string_pair_ind;
    intros Hd He c rest buf pos count Hx Hsp Hsg.
  - change (EmptyString ++ String c rest)%string with (String c rest).
    destruct rest as [|c' rest'].
    + rewrite hex_to_binary_from_single, sscanf_x_bad_start by assumption.
      reflexivity.
    + rewrite hex_to_binary_from_pair, sscanf_x_bad_start by assumption.
      reflexivity.
  - discriminate He.
  - rewrite !all_xdigit_cons, !andb_true_iff in Hd. destruct Hd as (H1 & H2 & Hr).
    change (String c1 (String c2 r) ++ String c rest)%string
      with (String c1 (String c2 (r ++ String c rest))).
    rewrite hex_to_binary_from_pair, sscanf_x_two_digits by assumption.
    apply IH; assumption.
Qed.

Lemma hex_to_binary_from_result (hex : string) :
  forall buf pos count,
    (fst (hex_to_binary_from buf pos count hex) = (-1)%Z \/
     fst (hex_to_binary_from buf pos count hex)
     = (count + Z.of_nat ((String.length hex + 1) / 2))%Z) /\
    List.length (snd (hex_to_binary_from buf pos count hex)) = List.length buf.
Proof.
  induction hex as [| c | c1 c2 r IH] using string_pair_ind; intros buf pos count.
  - simpl. rewrite store8_length. split; [right; lia|reflexivity].
  - rewrite hex_to_binary_from_single.
    destruct (sscanf_x 1 (String c EmptyString)); cbn [fst snd]; auto.
    rewrite store8_length, store32_length. split; [right|reflexivity].
    reflexivity.
  - rewrite hex_to_binary_from_pair.
    destruct (sscanf_x 2 (String c1 (String c2 r))); cbn [fst snd]; auto.
    destruct (IH (store32 pos v buf) (S pos) (count + 1)%Z) as [[H|H] Hl].
    + rewrite Hl, store32_length. auto.
    + rewrite Hl, store32_length. split; [right|reflexivity].
      rewrite H. cbn [String.length].
      replace (S (S (String.length r)) + 1) with (String.length r + 1 + 1 * 2) by lia.
      rewrite Nat.div_add by lia. lia.
Qed.

Lemma hex_to_binary_in_bounds_digits (hex : string) :
  all_xdigit hex = true ->
  forall size pos,
    hex_to_binary_in_bounds size pos hex
    = Nat.ltb (pos + (if Nat.eqb (String.length hex) 0 then 0
                      else (String.length hex + 1) / 2 + 2)) size.
Proof.
  induction hex as [| c | c1 c2 r IH] using string_pair_ind; intros Hd size pos.
  - simpl. now rewrite Nat.add_0_r.
  - rewrite all_xdigit_cons, andb_true_iff in Hd. destruct Hd as [Hc _].
    cbn [hex_to_binary_in_bounds]. rewrite sscanf_x_one_digit by exact Hc.
    cbn [String.length Nat.eqb].
    change ((1 + 1) / 2 + 2) with 3.
    destruct (Nat.ltb_spec (pos + 3) size), (Nat.ltb_spec (S pos) size);
      cbn [andb]; try reflexivity; lia.
  - rewrite !all_xdigit_cons, !andb_true_iff in Hd. destruct Hd as (H1 & H2 & Hr).
    cbn [hex_to_binary_in_bounds]. rewrite sscanf_x_two_digits by assumption.
    rewrite (IH Hr). cbn [String.length Nat.eqb].
    replace (S (S (String.length r)) + 1) with (String.length r + 1 + 1 * 2) by lia.
    rewrite Nat.div_add by lia.
    destruct (Nat.eqb_spec (String.length r) 0) as [E|E].
    + rewrite E. change ((0 + 1) / 2) with 0.
      destruct (Nat.ltb_spec (pos + 3) size), (Nat.ltb_spec (S pos + 0) size),
        (Nat.ltb_spec (pos + (0 + 1 + 2)) size); cbn [andb]; try reflexivity; lia.
    + destruct (Nat.ltb_spec (pos + 3) size),
        (Nat.ltb_spec (S pos + ((String.length r + 1) / 2 + 2)) size),
        (Nat.ltb_spec (pos + ((String.length r + 1) / 2 + 1 + 2)) size);
        cbn [andb]; try reflexivity; lia.
Qed.

End HexDecoder.

(** X1: a string of hexadecimal digits, in either case and of any length,
    decodes to one byte for every two digits and one more for a digit left
    over: [hex_to_binary] returns that number of bytes and leaves them at
    the start of the block [main] allocates. *)
Theorem hex_to_binary_decodes_digits (hex : string) :
  all_xdigit hex = true ->
  fst (hex_to_binary (salt_block hex) hex)
  = Z.of_nat ((String.length hex + 1) / 2) /\
  firstn ((String.length hex + 1) / 2) (snd (hex_to_binary (salt_block hex) hex))
  = hex_bytes hex.
Proof.
  intros Hd.
  destruct (hex_to_binary_from_digits hex Hd (salt_block hex) 0 0%Z) as [Hc Hb].
  { rewrite hex_bytes_length, salt_block_length.
    pose proof (half_up_le (String.length hex)). lia. }
  rewrite hex_bytes_length in Hc, Hb. split; [exact Hc | exact Hb].
Qed.

Lemma hex_to_binary_decodes_digits_witness :
  fst (hex_to_binary (salt_block "0aF") "0aF") = Z.of_nat ((String.length "0aF" + 1) / 2) /\
  firstn ((String.length "0aF" + 1) / 2) (snd (hex_to_binary (salt_block "0aF") "0aF"))
  = hex_bytes "0aF".
Proof. apply (hex_to_binary_decodes_digits "0aF"). reflexivity. Defined.

(** X2: when, after an even number of hexadecimal digits, the next
    character is neither a hexadecimal digit nor white space nor a sign,
    [hex_to_binary] returns -1, whatever follows and whatever the block. *)
Theorem hex_to_binary_rejects_bad_group (pre : string) (c : ascii) (rest : string)
        (buf : block) :
  all_xdigit pre = true ->
  Nat.even (String.length pre) = true ->
  xdigit c = None -> isspace c = false -> is_sign c = false ->
  fst (hex_to_binary buf (pre ++ String c rest)) = (-1)%Z.
Proof.
  intros Hd He Hx Hsp Hsg.
  now apply hex_to_binary_from_bad_group.
Qed.

Lemma hex_to_binary_rejects_bad_group_witness :
  fst (hex_to_binary (salt_block "00g1") ("00" ++ String "g" "1")) = (-1)%Z.
Proof.
  apply (hex_to_binary_rejects_bad_group "00" "g" "1" (salt_block "00g1"));
    reflexivity.
Defined.

(** X3: [hex_to_binary] returns either -1 or the number of groups of the
    string, half its length rounded up, and it returns 0 only for the
    empty string; the block keeps its size. *)
Theorem hex_to_binary_result (buf : block) (hex : string) :
  (fst (hex_to_binary buf hex) = (-1)%Z \/
   fst (hex_to_binary buf hex) = Z.of_nat ((String.length hex + 1) / 2)) /\
  (fst (hex_to_binary buf hex) = 0%Z <-> hex = EmptyString) /\
  List.length (snd (hex_to_binary buf hex)) = List.length buf.
Proof.
  destruct (hex_to_binary_from_result hex buf 0 0%Z) as [Hr Hl].
  unfold hex_to_binary. repeat split; try assumption.
  - intros H0. destruct hex as [|c r]; [reflexivity|].
    exfalso. destruct Hr as [Hr|Hr]; rewrite Hr in H0; [discriminate|].
    cbn [String.length] in H0.
    assert (1 <= (S (String.length r) + 1) / 2).
    { replace (S (String.length r) + 1) with (String.length r + 1 * 2) by lia.
      rewrite Nat.div_add by lia. lia. }
    lia.
  - intros ->. reflexivity.
Qed.

(** X4: for a string of hexadecimal digits decoded into the block [main]
    allocates for it, every store of [hex_to_binary] lies inside the
    block when the number of digits is even; when it is odd the four
    bytes of the last conversion end one byte past the block. *)
Theorem hex_to_binary_overruns_on_odd_length (hex : string) :
  all_xdigit hex = true ->
  hex_to_binary_in_bounds (List.length (salt_block hex)) 0 hex
  = Nat.even (String.length hex).
Proof.
  intros Hd. rewrite (hex_to_binary_in_bounds_digits hex Hd), salt_block_length.
  set (n := String.length hex).
  pose proof (Nat.div_mod_eq n 2) as Hn.
  pose proof (Nat.mod_upper_bound n 2 ltac:(lia)) as Hm.
  pose proof (Nat.div_mod_eq (n + 1) 2) as Hn1.
  pose proof (Nat.mod_upper_bound (n + 1) 2 ltac:(lia)) as Hm1.
  destruct (Nat.even n) eqn:Ev.
  - apply Nat.even_spec in Ev. destruct Ev as [k Hk].
    destruct (Nat.eqb_spec n 0); apply Nat.ltb_lt; lia.
  - assert (Od : Nat.odd n = true) by (rewrite <- Nat.negb_even, Ev; reflexivity).
    apply Nat.odd_spec in Od. destruct Od as [k Hk].
    destruct (Nat.eqb_spec n 0); apply Nat.ltb_ge; lia.
Qed.

Lemma hex_to_binary_overruns_on_odd_length_witness :
  hex_to_binary_in_bounds (List.length (salt_block "abc")) 0 "abc"
  = Nat.even (String.length "abc").
Proof. apply (hex_to_binary_overruns_on_odd_length "abc"). reflexivity. Defined.

(** ** More of the printer and of the cleaner *)

Section Printer.

Lemma string_length_append (s t : string) :
  String.length (s ++ t) = String.length s + String.length t.
Proof. induction s as [|c s IH]; simpl; [reflexivity|]. now rewrite IH. Qed.

Lemma print_hex_loop_length (buf : block) (todo : nat) :
  forall i, String.length (print_hex_loop buf i todo) = 2 * todo.
Proof.
  induction todo as [|k IH]; intros i; [reflexivity|].
  change (print_hex_loop buf i (S k))
    with (String.append (printf_02x (load8 i buf)) (print_hex_loop buf (S i) k)).
  rewrite string_length_append, IH. simpl. lia.
Qed.

Lemma print_hex_loop_prefix (pre bs post : list ascii) :
  print_hex_loop (pre ++ bs ++ post) (List.length pre) (List.length bs)
  = hex_text bs.
Proof.
  revert pre; induction bs as [|b t IH]; intros pre; [reflexivity|].
  change (print_hex_loop (pre ++ (b :: t) ++ post) (List.length pre)
            (List.length (b :: t)))
    with (String.append
            (printf_02x (load8 (List.length pre) (pre ++ (b :: t) ++ post)))
            (print_hex_loop (pre ++ (b :: t) ++ post) (S (List.length pre))
               (List.length t))).
  change (hex_text (b :: t)) with (String.append (printf_02x b) (hex_text t)).
  unfold load8. change ((b :: t) ++ post) with (b :: t ++ post).
  rewrite nth_middle. f_equal.
  replace (pre ++ b :: t ++ post) with ((pre ++ [b]) ++ t ++ post)
    by (rewrite <- app_assoc; reflexivity).
  replace (S (List.length pre)) with (List.length (pre ++ [b]))
    by (rewrite length_app; simpl; lia).
  apply IH.
Qed.

End Printer.

(** X5: whatever the block and the length, [print_hex] writes two
    characters for each of the [len] bytes and one newline; with a length
    of zero or less that is the newline alone. *)
Theorem print_hex_length (buf : block) (len : Z) :
  String.length (print_hex buf len) = 2 * Z.to_nat len + 1.
Proof.
  unfold print_hex. rewrite string_length_append, print_hex_loop_length.
  reflexivity.
Qed.

Lemma print_hex_firstn (buf : block) (len : Z) :
  Z.to_nat len <= List.length buf ->
  print_hex buf len
  = (hex_text (firstn (Z.to_nat len) buf) ++ String LF EmptyString)%string.
Proof.
  intros Hle. unfold print_hex. f_equal.
  rewrite <- (firstn_skipn (Z.to_nat len) buf) at 1.
  pose proof (print_hex_loop_prefix [] (firstn (Z.to_nat len) buf)
                (skipn (Z.to_nat len) buf)) as H.
  rewrite length_firstn, Nat.min_l in H by exact Hle. exact H.
Qed.

(** X6: when the block holds at least [len] bytes, [print_hex] writes the
    digits of its first [len] bytes and nothing of the rest. *)
Theorem print_hex_prefix (buf : block) (len : Z) :
  Z.to_nat len <= List.length buf ->
  print_hex buf len
  = (hex_text (firstn (Z.to_nat len) buf) ++ String LF EmptyString)%string.
Proof. exact (print_hex_firstn buf len). Qed.

Lemma print_hex_prefix_witness :
  print_hex (bytes "key and more") 3
  = (hex_text (firstn (Z.to_nat 3) (bytes "key and more")) ++ String LF EmptyString)%string.
Proof. apply (print_hex_prefix (bytes "key and more") 3). simpl. lia. Defined.

Section Cleaner.

Lemma blank_is_store8 (m : block) : blank m = store8 0 NUL m.
Proof.
  rewrite blank_clears_first. destruct m as [|c t]; [reflexivity|].
  simpl. destruct (Ascii.eqb c NUL) eqn:E; [|reflexivity].
  apply Ascii.eqb_eq in E. now subst c.
Qed.

Lemma store8_beyond (i : nat) (b : ascii) (m : block) :
  List.length m <= i -> store8 i b m = m.
Proof.
  revert i; induction m as [|h t IH]; intros i Hle; [now destruct i|].
  destruct i as [|i]; simpl in *; [lia|]. f_equal. apply IH. lia.
Qed.

Lemma store8_split (pre : block) (c : ascii) (post : block) (b : ascii) :
  store8 (List.length pre) b (pre ++ c :: post) = pre ++ b :: post.
Proof. induction pre as [|h t IH]; simpl; [reflexivity|]. now rewrite IH. Qed.

Lemma zero_loop_beyond (todo : nat) :
  forall j m, List.length m <= j -> zero_loop todo j m = m.
Proof.
  induction todo as [|k IH]; intros j m Hj; [reflexivity|].
  cbn [zero_loop]. rewrite store8_beyond by lia. apply IH. lia.
Qed.

(** The counted loop writes zero over [todo] bytes, as far as the block
    goes, and leaves what lies before and behind them. *)
Lemma zero_loop_app (todo : nat) :
  forall pre rest,
    zero_loop todo (List.length pre) (pre ++ rest)
    = pre ++ repeat NUL (Nat.min todo (List.length rest)) ++ skipn todo rest.
Proof.
  induction todo as [|k IH]; intros pre rest; [reflexivity|].
  cbn [zero_loop]. destruct rest as [|c post].
  - rewrite store8_beyond by (rewrite length_app; simpl; lia).
    rewrite zero_loop_beyond by (rewrite length_app; simpl; lia).
    reflexivity.
  - rewrite store8_split.
    replace (S (List.length pre)) with (List.length (pre ++ [NUL]))
      by (rewrite length_app; simpl; lia).
    replace (pre ++ NUL :: post) with ((pre ++ [NUL]) ++ post)
      by (rewrite <- app_assoc; reflexivity).
    rewrite IH, <- app_assoc. reflexivity.
Qed.

End Cleaner.

(** X7: of a password block, [cleanup] sets the first byte to zero and
    leaves every other byte as it was before it frees the block. *)
Theorem cleanup_clears_one_password_byte
        (result : option block) (result_len : Z) (m : block)
        (salt : option block) (salt_len : Z) :
  disposed Pass (trace (cleanup result result_len (Some m) salt salt_len))
  = [(ByFree, store8 0 NUL m)].
Proof.
  rewrite <- blank_is_store8. destruct result, salt; reflexivity.
Qed.

(** X8: of a result block and of a salt block, [cleanup] sets the first
    [len] bytes to zero, as far as the block goes, leaves the bytes behind
    them as they were, and frees the block. *)
Theorem cleanup_zeroes_counted_bytes
        (r : block) (result_len : Z) (pass : option block)
        (s : block) (salt_len : Z) :
  disposed Result (trace (cleanup (Some r) result_len pass (Some s) salt_len))
  = [(ByFree, repeat NUL (Nat.min (Z.to_nat result_len) (List.length r))
               ++ skipn (Z.to_nat result_len) r)] /\
  disposed Salt (trace (cleanup (Some r) result_len pass (Some s) salt_len))
  = [(ByFree, repeat NUL (Nat.min (Z.to_nat salt_len) (List.length s))
               ++ skipn (Z.to_nat salt_len) s)].
Proof.
  pose proof (zero_loop_app (Z.to_nat result_len) [] r) as Hr.
  pose proof (zero_loop_app (Z.to_nat salt_len) [] s) as Hs.
  cbn [List.length app] in Hr, Hs.
  destruct pass; unfold cleanup, trace, bind, emit, ret, disposed;
    cbn [fst snd app flat_map]; rewrite ?Hr, ?Hs; split; reflexivity.
Qed.

(** ** More of the runs *)

Section MoreRuns.

Local Open Scope prog_scope.

Lemma main_unfold env argv stdin :
  main env argv stdin
  = (p <- arguments env argv ;;
     st <- read_loop env p stdin start ;;
     after_read env p st).
Proof. reflexivity. Qed.

Lemma bind_ext {A B : Type} (m : prog A) (k h : A -> prog B) :
  (forall a, k a = h a) -> bind m k = bind m h.
Proof. intros H. unfold bind. destruct (snd m); [now rewrite H|reflexivity]. Qed.

Lemma bind_assoc {A B C : Type} (m : prog A) (k : A -> prog B) (h : B -> prog C) :
  bind (bind m k) h = bind m (fun a => bind (k a) h).
Proof.
  destruct m as [t [a|c]]; [|reflexivity].
  unfold bind. cbn [fst snd]. destruct (k a) as [t' [b|c']]; cbn [fst snd].
  - now rewrite app_assoc.
  - reflexivity.
Qed.

Lemma after_read_cases env p st :
  after_read env p st
  = if Nat.leb (pw_len st) 1 then
      ([Stderr PasswordEmpty;
        Dispose Pass ByFree (blank (pass st));
        Dispose Salt ByFree (zero_loop (Z.to_nat (salt_len p)) 0 (salt p))],
       inr 1%Z)
    else
      let pass1 := store8 (pw_len st - 1) NUL (pass st) in
      let result := calloc (Z.to_nat (result_len p) * sizeof_pointer env) in
      let result1 :=
        gcry_kdf_derive env pass1 (pw_len st - 1) (salt p) (salt_len p)
          (ic p) (result_len p) result in
      if gcry_check_version env then
        ([KdfDerive pass1 (pw_len st - 1) (salt p) (salt_len p) (ic p) (result_len p);
          Stdout (print_hex result1 (result_len p));
          Dispose Result ByFree (zero_loop (Z.to_nat (result_len p)) 0 result1);
          Dispose Pass ByFree (blank pass1);
          Dispose Salt ByFree (zero_loop (Z.to_nat (salt_len p)) 0 (salt p))],
         inl tt)
      else
        ([Stderr VersionMismatch;
          Dispose Result ByFree (zero_loop (Z.to_nat (result_len p)) 0 result);
          Dispose Pass ByFree (blank pass1);
          Dispose Salt ByFree (zero_loop (Z.to_nat (salt_len p)) 0 (salt p))],
         inr 2%Z).
Proof.
  unfold after_read. destruct (Nat.leb (pw_len st) 1); [reflexivity|].
  cbv zeta. destruct (gcry_check_version env); reflexivity.
Qed.

Lemma grow_cases env p st :
  grow env p st
  = let grown :=
      {| pass := pass st ++ map (fresh env) (seq (buff_len st) (buff_len st));
         pw_len := pw_len st;
         buff_len := 2 * buff_len st |} in
    match realloc env (2 * buff_len st) with
    | ReallocFails =>
        ([Dispose Pass Orphaned (pass st);
          Stderr ErrorAllocating;
          Dispose Salt ByFree (zero_loop (Z.to_nat (salt_len p)) 0 (salt p))],
         inr 3%Z)
    | ReallocInPlace => ([], inl grown)
    | ReallocMoves => ([Dispose Pass ByRealloc (pass st)], inl grown)
    end.
Proof. unfold grow. destruct (realloc env (2 * buff_len st)); reflexivity. Qed.

Lemma read_loop_cons env p b rest st :
  read_loop env p (b :: rest) st
  = if Ascii.eqb b xFF then ret st
    else
      st1 <- (if Nat.eqb (pw_len st) (buff_len st) then grow env p st else ret st) ;;
      read_loop env p rest
        {| pass := store8 (pw_len st1) b (pass st1);
           pw_len := S (pw_len st1);
           buff_len := buff_len st1 |}.
Proof.
  cbn [read_loop]. rewrite schar_is_EOF, byte_of_schar. reflexivity.
Qed.

(** What the loop never does, and what it keeps. *)
Lemma read_loop_general env p stdin :
  forall st,
    fits st ->
    outputs (fst (read_loop env p stdin st)) = [] /\
    derive_calls (fst (read_loop env p stdin st)) = [] /\
    disposed Result (fst (read_loop env p stdin st)) = [] /\
    match snd (read_loop env p stdin st) with
    | inl st' => fits st' /\ pw_len st <= pw_len st'
    | inr code => code = 3%Z
    end.
Proof.
  induction stdin as [|b rest IH]; intros st Hfits.
  - cbn. auto.
  - rewrite read_loop_cons. destruct (Ascii.eqb b xFF); [cbn; auto|].
    destruct Hfits as (Hle & Hlen & Hpos).
    destruct (Nat.eqb (pw_len st) (buff_len st)) eqn:Hfull.
    + apply Nat.eqb_eq in Hfull. rewrite grow_cases. cbv zeta.
      destruct (realloc env (2 * buff_len st)).
      * rewrite bind_exit. cbn. auto.
      * rewrite bind_value. cbn [pass pw_len buff_len fst snd app].
        match goal with |- context [read_loop env p rest ?s] =>
          destruct (IH s) as (Ho & Hd & Hr & Hs) end.
        { unfold fits. cbn [pass pw_len buff_len]. repeat split; try lia.
          rewrite store8_length, length_app, length_map, length_seq. lia. }
        repeat split; try assumption.
        destruct (snd (read_loop env p rest _)); [|exact Hs].
        cbn [pw_len] in Hs. split; [apply Hs|lia].
      * rewrite bind_value. cbn [pass pw_len buff_len fst snd].
        match goal with |- context [read_loop env p rest ?s] =>
          destruct (IH s) as (Ho & Hd & Hr & Hs) end.
        { unfold fits. cbn [pass pw_len buff_len]. repeat split; try lia.
          rewrite store8_length, length_app, length_map, length_seq. lia. }
        unfold outputs, derive_calls, disposed in *.
        rewrite !flat_map_app. cbn [flat_map app].
        repeat split; try assumption.
        destruct (snd (read_loop env p rest _)); [|exact Hs].
        cbn [pw_len] in Hs. split; [apply Hs|lia].
    + apply Nat.eqb_neq in Hfull. rewrite bind_ret.
      match goal with |- context [read_loop env p rest ?s] =>
        destruct (IH s) as (Ho & Hd & Hr & Hs) end.
      { unfold fits. cbn [pass pw_len buff_len]. repeat split; try lia.
        rewrite store8_length. lia. }
      repeat split; try assumption.
      destruct (snd (read_loop env p rest _)); [|exact Hs].
      cbn [pw_len] in Hs. split; [apply Hs|lia].
Qed.

(** Everything from the first byte 255 on is left unread. *)
Lemma read_loop_cut env p post pre :
  forall st, read_loop env p (pre ++ xFF :: post) st = read_loop env p pre st.
Proof.
  induction pre as [|b rest IH]; intros st.
  - reflexivity.
  - change ((b :: rest) ++ xFF :: post) with (b :: (rest ++ xFF :: post)).
    rewrite !read_loop_cons. destruct (Ascii.eqb b xFF); [reflexivity|].
    apply bind_ext. intros st1. apply IH.
Qed.

(** While the input fits in the block, the allocator is not asked. *)
Lemma read_loop_within env env' p stdin :
  forall st,
    pw_len st + List.length stdin <= buff_len st ->
    read_loop env p stdin st = read_loop env' p stdin st /\
    exists st', read_loop env p stdin st = ret st'.
Proof.
  induction stdin as [|b rest IH]; intros st Hroom.
  - split; [reflexivity|]. now exists st.
  - rewrite !read_loop_cons. destruct (Ascii.eqb b xFF).
    { split; [reflexivity|]. now exists st. }
    cbn [List.length] in Hroom.
    replace (Nat.eqb (pw_len st) (buff_len st)) with false
      by (symmetry; apply Nat.eqb_neq; lia).
    rewrite !bind_ret. apply IH. cbn [pw_len buff_len]. lia.
Qed.

Lemma read_loop_app env p a :
  Forall (fun b => b <> xFF) a ->
  forall b st,
    read_loop env p (a ++ b) st
    = (st' <- read_loop env p a st ;; read_loop env p b st').
Proof.
  induction 1 as [|c a Hc Ha IH]; intros b st.
  - cbn [app read_loop]. now rewrite bind_ret.
  - change ((c :: a) ++ b) with (c :: (a ++ b)).
    rewrite !read_loop_cons. apply Ascii.eqb_neq in Hc. rewrite Hc.
    rewrite bind_assoc. apply bind_ext. intros st1. apply IH.
Qed.

Lemma arguments_accepted env argv p :
  arguments env argv = ret p ->
  List.length argv = 4 /\
  (salt_len p, salt p)
  = hex_to_binary (salt_block (nth 1 argv EmptyString)) (nth 1 argv EmptyString) /\
  (0 < salt_len p)%Z /\ (0 < ic p)%Z /\ (0 < result_len p)%Z /\
  (forall v, sscanf_d (nth 2 argv EmptyString) = ScanAssigned v -> ic p = v) /\
  (forall v, sscanf_d (nth 3 argv EmptyString) = ScanAssigned v -> result_len p = v).
Proof.
  unfold arguments.
  destruct (Nat.eqb (List.length argv) 4) eqn:Hn; cbn [negb]; [|discriminate].
  apply Nat.eqb_eq in Hn.
  destruct (hex_to_binary _ _) as [n s].
  destruct (Z.leb_spec n 0); [discriminate|].
  destruct (sscanf_d (nth 2 argv EmptyString)) as [| |i] eqn:E2; cbn [scan_ret];
    try discriminate.
  destruct (Z.leb_spec i 0); cbn [orb Z.eqb]; [discriminate|].
  destruct (sscanf_d (nth 3 argv EmptyString)) as [| |k] eqn:E3; cbn [scan_ret].
  - destruct (Z.leb_spec (stack_result_len env) 0); cbn; [discriminate|].
    intros [= <-]. cbn. repeat split; try assumption; try lia.
    + now intros v [= ->].
    + discriminate.
  - discriminate.
  - destruct (Z.leb_spec k 0); cbn; [discriminate|].
    intros [= <-]. cbn. repeat split; try assumption; try lia.
    + now intros v [= ->].
    + now intros v [= ->].
Qed.

End MoreRuns.

Section Shapes.

Local Open Scope prog_scope.






Lemma main_cases env argv stdin :
  (exists d c, main env argv stdin = ([Stderr d], inr c)
               /\ (c = 10 \/ c = 1)%Z
               /\ forall p, arguments env argv <> ret p)
  \/ (exists p t, arguments env argv = ret p /\ quiet t
                  /\ main env argv stdin = (t, inr 3%Z))
  \/ (exists p t st, arguments env argv = ret p /\ quiet t /\ fits st
                     /\ read_loop env p stdin start = (t, inl st)
                     /\ main env argv stdin
                        = (t ++ fst (after_read env p st), snd (after_read env p st))).
Proof.
  rewrite main_unfold.
  destruct (arguments_outcome env argv) as [[p Hp] | [[a Ha] | (d & Hd & _)]].
  - right. rewrite Hp, bind_ret.
    destruct (read_loop_general env p stdin start start_fits) as (Ho & Hd & Hr & Hs).
    destruct (read_loop env p stdin start) as [t [st|c]] eqn:E; cbn [fst snd] in *.
    + right. exists p, t, st. repeat split; try assumption; try apply Hs.
    + left. subst c. exists p, t. repeat split; assumption.
  - left. rewrite Ha, bind_exit. exists (Usage a), 10%Z.
    repeat split; [now left|]. intros p. discriminate.
  - left. rewrite Hd, bind_exit. exists d, 1%Z.
    repeat split; [now right|]. intros p. discriminate.
Qed.

Lemma ret_inj {A : Type} (a b : A) : @ret A a = ret b -> a = b.
Proof. now intros [= ->]. Qed.

End Shapes.


(** X10: a run that exits with status 0 has called the derivation once
    and written one text to standard output; a run that exits with any
    other status has done neither. *)
Theorem output_only_on_success env argv stdin :
  if (exit_status (main env argv stdin) =? 0)%Z
  then List.length (outputs (trace (main env argv stdin))) = 1
       /\ List.length (derive_calls (trace (main env argv stdin))) = 1
  else outputs (trace (main env argv stdin)) = []
       /\ derive_calls (trace (main env argv stdin)) = [].
Proof.
  destruct (main_cases env argv stdin)
    as [(d & c & -> & Hc & _) | [(p & t & _ & (Ho & Hd & _) & ->)
                           | (p & t & st & _ & (Ho & Hd & _) & _ & _ & ->)]];
    unfold trace, exit_status; cbn [fst snd].
  - destruct Hc as [-> | ->]; cbn; auto.
  - cbn. auto.
  - unfold outputs, derive_calls in *. rewrite !flat_map_app, Ho, Hd. cbn [app].
    rewrite after_read_cases.
    destruct (Nat.leb (pw_len st) 1); [cbn; auto|].
    cbv zeta. destruct (gcry_check_version env); cbn; auto.
Qed.

(** X11: when the arguments are accepted, any text the run writes to
    standard output has twice as many characters as the requested length,
    plus the newline. *)
Theorem output_has_requested_length env argv p stdin :
  arguments env argv = ret p ->
  Forall (fun text => String.length text = 2 * Z.to_nat (result_len p) + 1)
         (outputs (trace (main env argv stdin))).
Proof.
  intros Hp.
  destruct (main_cases env argv stdin)
    as [(d & c & _ & _ & Hn) | [(p' & t & _ & (Ho & _ & _) & ->)
                           | (p' & t & st & Hp' & (Ho & _ & _) & _ & _ & ->)]];
    unfold trace; cbn [fst].
  - now destruct (Hn p).
  - rewrite Ho. constructor.
  - rewrite Hp in Hp'. apply ret_inj in Hp'. subst p'.
    unfold outputs in *. rewrite flat_map_app, Ho. cbn [app].
    rewrite after_read_cases.
    destruct (Nat.leb (pw_len st) 1); [constructor|].
    cbv zeta. destruct (gcry_check_version env); cbn [fst flat_map app].
    + constructor; [|constructor].
      unfold print_hex. rewrite string_length_append, print_hex_loop_length.
      reflexivity.
    + constructor.
Qed.

Lemma output_has_requested_length_witness :
  Forall (fun text => String.length text = 2 * Z.to_nat (result_len params_ok) + 1)
         (outputs (trace (main machine argv_ok (bytes "abc" ++ [LF])))).
Proof.
  apply (output_has_requested_length machine argv_ok params_ok). reflexivity.
Defined.

(** X12: arguments are accepted only when there are four of them, the
    salt decodes to at least one byte, and the iteration count and the
    length are positive; the count and the length are the numbers [sscanf]
    converted. *)
Theorem accepted_arguments_are_positive env argv p :
  arguments env argv = ret p ->
  List.length argv = 4 /\
  (salt_len p, salt p)
  = hex_to_binary (salt_block (nth 1 argv EmptyString)) (nth 1 argv EmptyString) /\
  (0 < salt_len p)%Z /\ (0 < ic p)%Z /\ (0 < result_len p)%Z /\
  (forall v, sscanf_d (nth 2 argv EmptyString) = ScanAssigned v -> ic p = v) /\
  (forall v, sscanf_d (nth 3 argv EmptyString) = ScanAssigned v -> result_len p = v).
Proof. exact (arguments_accepted env argv p). Qed.

Lemma accepted_arguments_are_positive_witness :
  List.length argv_ok = 4 /\
  (salt_len params_ok, salt params_ok)
  = hex_to_binary (salt_block (nth 1 argv_ok EmptyString)) (nth 1 argv_ok EmptyString) /\
  (0 < salt_len params_ok)%Z /\ (0 < ic params_ok)%Z /\ (0 < result_len params_ok)%Z /\
  (forall v, sscanf_d (nth 2 argv_ok EmptyString) = ScanAssigned v -> ic params_ok = v) /\
  (forall v, sscanf_d (nth 3 argv_ok EmptyString) = ScanAssigned v
             -> result_len params_ok = v).
Proof.
  apply (accepted_arguments_are_positive machine argv_ok params_ok). reflexivity.
Defined.

(** X13: every derivation is called with a password of at least one
    byte that lies inside the password block, and the byte of the block
    behind the password is zero. *)
Theorem derivation_password_is_terminated env argv stdin :
  Forall (fun call => 1 <= snd call < List.length (fst call)
                      /\ load8 (snd call) (fst call) = NUL)
         (derive_calls (trace (main env argv stdin))).
Proof.
  destruct (main_cases env argv stdin)
    as [(d & c & -> & _) | [(p & t & _ & (_ & Hd & _) & ->)
                           | (p & t & st & _ & (_ & Hd & _) & Hfits & _ & ->)]];
    unfold trace; cbn [fst].
  - constructor.
  - rewrite Hd. constructor.
  - unfold derive_calls in *. rewrite flat_map_app, Hd. cbn [app].
    rewrite after_read_cases.
    destruct (Nat.leb_spec (pw_len st) 1); [constructor|].
    cbv zeta. destruct (gcry_check_version env); cbn [fst flat_map app].
    + destruct Hfits as (Hle & Hlen & _).
      constructor; [|constructor]. cbn [fst snd].
      rewrite store8_length. split; [lia|]. apply load8_store8. lia.
    + constructor.
Qed.

Section Passwords.

Local Open Scope prog_scope.


(** While the input fits, the loop puts it into the block byte by byte. *)
Lemma read_loop_fills env p stdin :
  Forall (fun b => b <> xFF) stdin ->
  forall st,
    fits st ->
    pw_len st + List.length stdin <= buff_len st ->
    exists st',
      read_loop env p stdin st = ret st' /\
      fits st' /\
      pw_len st' = pw_len st + List.length stdin /\
      buff_len st' = buff_len st /\
      firstn (pw_len st') (pass st') = firstn (pw_len st) (pass st) ++ stdin.
Proof.
  induction 1 as [|b rest Hb Hrest IH]; intros st Hfits Hroom.
  - exists st. repeat split; try apply Hfits.
    + simpl. lia.
    + now rewrite app_nil_r.
  - rewrite read_loop_cons. apply Ascii.eqb_neq in Hb. rewrite Hb.
    cbn [List.length] in Hroom. destruct Hfits as (Hle & Hlen & Hpos).
    replace (Nat.eqb (pw_len st) (buff_len st)) with false
      by (symmetry; apply Nat.eqb_neq; lia).
    rewrite bind_ret.
    match goal with |- context [read_loop env p rest ?s] =>
      destruct (IH s) as (st' & Hrun & Hfits' & Hpw & Hbl & Hbytes) end.
    { unfold fits. cbn [pass pw_len buff_len]. repeat split; try lia.
      rewrite store8_length. lia. }
    { cbn [pw_len buff_len]. lia. }
    cbn [pass pw_len buff_len] in *.
    exists st'. repeat split; try apply Hfits'; try assumption.
    + rewrite Hpw. simpl. lia.
    + rewrite Hbytes, firstn_store8_at by lia. now rewrite <- app_assoc.
Qed.

Lemma read_loop_full_block env p first :
  Forall (fun b => b <> xFF) first ->
  List.length first = BLOCK_SIZE ->
  read_loop env p first start
  = ret {| pass := first; pw_len := BLOCK_SIZE; buff_len := BLOCK_SIZE |}.
Proof.
  intros Hff Hlen.
  destruct (read_loop_fills env p first Hff start start_fits)
    as (st' & -> & (_ & Hblock & _) & Hpw & Hbl & Hbytes).
  { cbn [pw_len buff_len start]. lia. }
  cbn [pw_len buff_len pass start] in *. simpl in Hpw, Hbytes.
  destruct st' as [m n k]. cbn [pass pw_len buff_len] in *.
  unfold BLOCK_SIZE in *.
  assert (Hm : m = first).
  { rewrite <- Hbytes. symmetry. apply firstn_all2. lia. }
  assert (Hn : n = 40) by lia.
  rewrite Hm, Hn, Hbl. reflexivity.
Qed.


End Passwords.

(** X14: with four arguments and a salt that decodes, an iteration count
    that [sscanf] does not convert to a positive number, the empty
    argument included, ends the run with the count diagnostic and status
    1 before standard input is read. *)
Theorem count_not_positive_rejected env argv stdin :
  List.length argv = 4 ->
  (0 < fst (hex_to_binary (salt_block (nth 1 argv EmptyString))
              (nth 1 argv EmptyString)))%Z ->
  (forall v, sscanf_d (nth 2 argv EmptyString) = ScanAssigned v -> (v <= 0)%Z) ->
  main env argv stdin = ([Stderr CountNotPositive], inr 1%Z).
Proof.
  intros Hn Hsalt Hcount. rewrite main_unfold. unfold arguments.
  rewrite Hn. cbn [Nat.eqb negb].
  destruct (hex_to_binary _ _) as [n s]. cbn [fst] in Hsalt.
  replace (n <=? 0)%Z with false by (symmetry; apply Z.leb_gt; lia).
  destruct (sscanf_d (nth 2 argv EmptyString)) as [| |v]; cbn [scan_ret].
  - reflexivity.
  - reflexivity.
  - specialize (Hcount v eq_refl).
    replace (v <=? 0)%Z with true by (symmetry; apply Z.leb_le; lia).
    rewrite orb_true_r. reflexivity.
Qed.

Lemma count_not_positive_rejected_witness :
  main machine ["pbkdf2"; "0011"; ""; "4"]%string (bytes "abc" ++ [LF])
  = ([Stderr CountNotPositive], inr 1%Z).
Proof.
  apply (count_not_positive_rejected machine ["pbkdf2"; "0011"; ""; "4"]%string).
  - reflexivity.
  - reflexivity.
  - intros v H. discriminate H.
Defined.

(** X15: with four arguments, a salt that decodes and a positive count, a
    length argument in which [sscanf] finds no number, or finds one that
    is not positive, ends the run with the length diagnostic and status 1
    before standard input is read; the argument must not be empty or
    blank for this. *)
Theorem length_not_positive_rejected env argv stdin i :
  List.length argv = 4 ->
  (0 < fst (hex_to_binary (salt_block (nth 1 argv EmptyString))
              (nth 1 argv EmptyString)))%Z ->
  sscanf_d (nth 2 argv EmptyString) = ScanAssigned i -> (0 < i)%Z ->
  sscanf_d (nth 3 argv EmptyString) <> ScanEOF ->
  (forall v, sscanf_d (nth 3 argv EmptyString) = ScanAssigned v -> (v <= 0)%Z) ->
  main env argv stdin = ([Stderr ResultLenNotPositive], inr 1%Z).
Proof.
  intros Hn Hsalt Hi Hpos Hne Hlen. rewrite main_unfold. unfold arguments.
  rewrite Hn. cbn [Nat.eqb negb].
  destruct (hex_to_binary _ _) as [n s]. cbn [fst] in Hsalt.
  replace (n <=? 0)%Z with false by (symmetry; apply Z.leb_gt; lia).
  rewrite Hi. cbn [scan_ret].
  replace (i <=? 0)%Z with false by (symmetry; apply Z.leb_gt; lia).
  cbn [Z.eqb orb].
  destruct (sscanf_d (nth 3 argv EmptyString)) as [| |v]; cbn [scan_ret].
  - now destruct Hne.
  - reflexivity.
  - specialize (Hlen v eq_refl).
    replace (v <=? 0)%Z with true by (symmetry; apply Z.leb_le; lia).
    rewrite orb_true_r. reflexivity.
Qed.

Lemma length_not_positive_rejected_witness :
  main machine ["pbkdf2"; "0011"; "1"; "-4"]%string (bytes "abc" ++ [LF])
  = ([Stderr ResultLenNotPositive], inr 1%Z).
Proof.
  apply (length_not_positive_rejected machine
           ["pbkdf2"; "0011"; "1"; "-4"]%string (bytes "abc" ++ [LF]) 1%Z).
  - reflexivity.
  - reflexivity.
  - reflexivity.
  - reflexivity.
  - discriminate.
  - intros v [= <-]. vm_compute. discriminate.
Defined.

(** X16: the run is the same whatever follows the first byte 255 of
    standard input: that byte and all bytes behind it are never read. *)
Theorem input_behind_byte_255_is_ignored env argv (pre post : list ascii) :
  main env argv (pre ++ xFF :: post) = main env argv pre.
Proof.
  rewrite !main_unfold. apply bind_ext. intros p.
  now rewrite read_loop_cut.
Qed.

(** X17: with at most forty bytes on standard input [realloc] is not
    called: the run does not depend on the allocator and never exits with
    status 3. *)
Theorem short_input_needs_no_realloc env argv stdin f g :
  List.length stdin <= BLOCK_SIZE ->
  main (set_allocator f g env) argv stdin = main env argv stdin /\
  exit_status (main env argv stdin) <> 3%Z.
Proof.
  intros Hlen.
  assert (Hroom : pw_len start + List.length stdin <= buff_len start)
    by (cbn [pw_len buff_len start]; lia).
  split.
  - rewrite !main_unfold.
    change (arguments (set_allocator f g env) argv) with (arguments env argv).
    apply bind_ext. intros p.
    destruct (read_loop_within (set_allocator f g env) env p stdin start Hroom)
      as [-> _].
    apply bind_ext. intros st. reflexivity.
  - rewrite main_unfold.
    destruct (arguments_outcome env argv) as [[p ->] | [[a ->] | (d & -> & _)]].
    + rewrite bind_ret.
      destruct (read_loop_within env env p stdin start Hroom) as [_ [st' ->]].
      rewrite bind_ret, after_read_cases. unfold exit_status.
      destruct (Nat.leb (pw_len st') 1); [discriminate|].
      cbv zeta. destruct (gcry_check_version env); discriminate.
    + discriminate.
    + discriminate.
Qed.

Lemma short_input_needs_no_realloc_witness :
  main (set_allocator (fun _ => ReallocFails) (fun _ => NUL) machine) argv_ok
       (bytes "abc" ++ [LF])
  = main machine argv_ok (bytes "abc" ++ [LF]) /\
  exit_status (main machine argv_ok (bytes "abc" ++ [LF])) <> 3%Z.
Proof.
  apply (short_input_needs_no_realloc machine argv_ok (bytes "abc" ++ [LF])).
  unfold BLOCK_SIZE. simpl. lia.
Defined.

(** X18: when the arguments are accepted, standard input holds more than
    forty bytes, none of the first forty-one being 255, and the first
    [realloc] fails, the run ends with status 3 after the allocation
    diagnostic; the salt block is cleared and freed, and the block with
    the first forty password bytes is left as it is, never freed. *)
Theorem failed_growth_abandons_password env argv p first b rest :
  arguments env argv = ret p ->
  List.length first = BLOCK_SIZE ->
  Forall (fun c => c <> xFF) first ->
  b <> xFF ->
  realloc env (2 * BLOCK_SIZE) = ReallocFails ->
  main env argv (first ++ b :: rest)
  = ([Dispose Pass Orphaned first;
      Stderr ErrorAllocating;
      Dispose Salt ByFree (zero_loop (Z.to_nat (salt_len p)) 0 (salt p))],
     inr 3%Z).
Proof.
  intros Hp Hlen Hff Hb Hfail.
  rewrite main_unfold, Hp, bind_ret.
  rewrite (read_loop_app env p first Hff), (read_loop_full_block env p first Hff Hlen).
  rewrite bind_ret, read_loop_cons.
  apply Ascii.eqb_neq in Hb. rewrite Hb.
  cbn [pw_len buff_len]. rewrite Nat.eqb_refl, grow_cases. cbv zeta.
  cbn [pw_len buff_len pass]. rewrite Hfail.
  rewrite !bind_exit. reflexivity.
Qed.

Lemma failed_growth_abandons_password_witness :
  main (with_realloc ReallocFails machine) argv_ok (repeat "a"%char 40 ++ LF :: [])
  = ([Dispose Pass Orphaned (repeat "a"%char 40);
      Stderr ErrorAllocating;
      Dispose Salt ByFree
        (zero_loop (Z.to_nat (salt_len params_ok)) 0 (salt params_ok))],
     inr 3%Z).
Proof.
  apply (failed_growth_abandons_password (with_realloc ReallocFails machine)
           argv_ok params_ok (repeat "a"%char 40) LF []).
  - reflexivity.
  - reflexivity.
  - apply Forall_forall. intros c Hc. apply repeat_spec in Hc. subst c. discriminate.
  - discriminate.
  - reflexivity.
Defined.



Section WholeRun.

Local Open Scope prog_scope.



End WholeRun.



